(** * Fliq match-result watcher: snapshot normalisation and reconciliation

    A shallow embedding of [fliq_match_result_cron.py] (the single-run
    variant) and [fliq_match_result_watcher.py] (the long-running variant).

    Python dictionaries are finite maps ([gmap string _]); JSON values are
    the inductive [value]; text is a [string] of bytes, so the text functions
    below ([lower], [strip], the regular-expression substitutions, [int]) are
    the ASCII fragment of the Python ones.  JSON numbers with a fractional
    part are outside the model.  The clock, the fetched questions and the
    outcome of a fetch are explicit arguments; what a run writes (console
    log, removal log, alerts, persisted snapshot) is returned as data. *)

From Stdlib Require Import ZArith String Ascii List Bool Lia DecimalString
  DecimalPos.
From stdpp Require Import base option list sorting strings gmap fin_maps.

Local Open Scope string_scope.
Local Open Scope Z_scope.

(** ** Characters and text *)

Module Text.

Definition code (c : ascii) : nat := nat_of_ascii c.

Definition in_range (lo hi : nat) (c : ascii) : bool :=
  (lo <=? code c)%nat && (code c <=? hi)%nat.

(** [a-z] and [0-9] of the patterns in [slugify]. *)
Definition is_lower_alnum (c : ascii) : bool :=
  in_range 97 122 c || in_range 48 57 c.

(** [str.isspace] and the class [\s] on ASCII: tab, line feed, vertical
    tab, form feed, carriage return, the four separators 0x1c-0x1f and
    the space. *)
Definition is_space (c : ascii) : bool :=
  in_range 9 13 c || in_range 28 32 c.

Definition is_hyphen (c : ascii) : bool := Ascii.eqb c "-".

Definition is_digit (c : ascii) : bool := in_range 48 57 c.

(** [str.lower()] on one character. *)
Definition lower_char (c : ascii) : ascii :=
  if in_range 65 90 c then ascii_of_nat (code c + 32) else c.

Definition lower_list (s : list ascii) : list ascii := map lower_char s.

Definition lower (s : string) : string :=
  string_of_list_ascii (lower_list (list_ascii_of_string s)).

(** [str.lstrip] / [str.rstrip] / [str.strip] for a set of characters
    given as a predicate. *)
Fixpoint lstrip (p : ascii -> bool) (s : list ascii) : list ascii :=
  match s with
  | [] => []
  | c :: s' => if p c then lstrip p s' else s
  end.

Definition is_nil {A} (l : list A) : bool :=
  match l with [] => true | _ => false end.

Fixpoint rstrip (p : ascii -> bool) (s : list ascii) : list ascii :=
  match s with
  | [] => []
  | c :: s' =>
      let r := rstrip p s' in
      if p c && is_nil r then [] else c :: r
  end.

Definition strip_list (p : ascii -> bool) (s : list ascii) : list ascii :=
  rstrip p (lstrip p s).

Definition strip (s : string) : string :=
  string_of_list_ascii (strip_list is_space (list_ascii_of_string s)).

(** [s.replace(a, b)] for one-character [a] and [b]. *)
Definition replace_char (a b : ascii) (s : list ascii) : list ascii :=
  map (fun c => if Ascii.eqb c a then b else c) s.

(** [re.sub(r"[^...]", r, s)]: every character outside the class [keep]
    becomes [r]. *)
Definition sub_not_in (keep : ascii -> bool) (r : ascii) (s : list ascii)
  : list ascii :=
  map (fun c => if keep c then c else r) s.

(** [re.sub(r"X+", r, s)]: every maximal run of characters of the class
    [p] becomes one [r].  [in_run] tells that the previous character
    belonged to a run already replaced. *)
Fixpoint sub_runs_from (p : ascii -> bool) (r : ascii) (in_run : bool)
    (s : list ascii) : list ascii :=
  match s with
  | [] => []
  | c :: s' =>
      if p c then
        if in_run then sub_runs_from p r true s'
        else r :: sub_runs_from p r true s'
      else c :: sub_runs_from p r false s'
  end.

Definition sub_runs (p : ascii -> bool) (r : ascii) (s : list ascii)
  : list ascii :=
  sub_runs_from p r false s.

(** [needle in hay]. *)
Fixpoint contains (needle hay : string) : bool :=
  String.prefix needle hay
  || match hay with
     | EmptyString => false
     | String _ hay' => contains needle hay'
     end.

(** [" ".join(parts)]. *)
Fixpoint join_space (parts : list string) : string :=
  match parts with
  | [] => ""
  | [p] => p
  | p :: rest => p ++ " " ++ join_space rest
  end.

End Text.

(** ** [slugify] / [slugify_header] *)

(** The body shared by [slugify] (watcher) and [slugify_header] (cron); the
    two functions are the same text. *)
Definition slugify_list (text : list ascii) : list ascii :=
  let s := Text.strip_list Text.is_space (Text.lower_list text) in
  let s := Text.replace_char ":" " " s in
  let s := Text.sub_not_in
             (fun c => Text.is_lower_alnum c || Text.is_space c) " " s in
  let s := Text.sub_runs Text.is_space "-" s in
  let s := Text.sub_runs Text.is_hyphen "-" s in
  Text.strip_list Text.is_hyphen s.

Definition slugify (text : string) : string :=
  string_of_list_ascii (slugify_list (list_ascii_of_string text)).

Definition slugify_header (header : string) : string := slugify header.



(** ** JSON values and the Python primitives the programs apply to them *)

(** A JSON scalar: null, a boolean, an integer or a string. *)
Inductive scalar : Type :=
  | SNone
  | SBool (b : bool)
  | SInt (z : Z)
  | SStr (s : string).

(** A JSON value; a dictionary keeps its items in insertion order. *)
#[local] Set Warnings "-register-all".
Inductive value : Type :=
  | VAtom (a : scalar)
  | VList (l : list value)
  | VDict (d : list (string * value)).

Definition VNone : value := VAtom SNone.
Definition VBool (b : bool) : value := VAtom (SBool b).
Definition VInt (z : Z) : value := VAtom (SInt z).
Definition VStr (s : string) : value := VAtom (SStr s).

Module Py.

(** [bool(x)]. *)
Definition truthy (x : scalar) : bool :=
  match x with
  | SNone => false
  | SBool b => b
  | SInt z => negb (z =? 0)
  | SStr s => negb (String.eqb s "")
  end.

Definition truthy_value (v : value) : bool :=
  match v with
  | VAtom a => truthy a
  | VList l => negb (Text.is_nil l)
  | VDict d => negb (Text.is_nil d)
  end.

(** [str(x)]. *)
Definition str (x : scalar) : string :=
  match x with
  | SNone => "None"
  | SBool true => "True"
  | SBool false => "False"
  | SInt z => NilZero.string_of_int (Z.to_int z)
  | SStr s => s
  end.

(** [x or 0]. *)
Definition or_zero (x : scalar) : scalar :=
  if truthy x then x else SInt 0.

(** [x or ""] for a field that holds a string or is absent/null. *)
Definition or_empty (x : option string) : string :=
  match x with
  | Some s => s
  | None => ""
  end.

Definition digit_value (c : ascii) : Z := Z.of_nat (Text.code c - 48).

(** The digits of an integer literal, single underscores allowed between
    digits.  [after_digit] tells that the previous character was a
    digit. *)
Fixpoint digits (acc : Z) (after_digit : bool) (s : list ascii)
  : option Z :=
  match s with
  | [] => if after_digit then Some acc else None
  | c :: s' =>
      if Text.is_digit c then digits (acc * 10 + digit_value c) true s'
      else if Ascii.eqb c "_" then
        if after_digit then digits acc false s' else None
      else None
  end.

(** [int(s)] for a string in base ten: surrounding white space, an
    optional sign, digits.  [None] is [ValueError].  The interpreter's
    limit on the number of digits is not modelled. *)
Definition int_of_string (s : string) : option Z :=
  match Text.strip_list Text.is_space (list_ascii_of_string s) with
  | "+"%char :: r => digits 0 false r
  | "-"%char :: r => Z.opp <$> digits 0 false r
  | r => digits 0 false r
  end.

(** [int(x)]; [None] is the exception ([TypeError] or [ValueError]). *)
Definition int (x : scalar) : option Z :=
  match x with
  | SNone => None
  | SBool b => Some (if b then 1 else 0)
  | SInt z => Some z
  | SStr s => int_of_string s
  end.

(** [x == y] on scalars: booleans are the integers 0 and 1. *)
Definition eqb_scalar (x y : scalar) : bool :=
  match x, y with
  | SNone, SNone => true
  | SStr s, SStr t => String.eqb s t
  | SBool b, SBool c => Bool.eqb b c
  | SInt z, SInt w => z =? w
  | SBool b, SInt z | SInt z, SBool b => z =? (if b then 1 else 0)
  | _, _ => false
  end.

(** [d.get(k)] on an item list. *)
Fixpoint assoc (k : string) (d : list (string * value)) : option value :=
  match d with
  | [] => None
  | (k', v) :: d' => if String.eqb k k' then Some v else assoc k d'
  end.

(** [x == y] on values: lists element by element, dictionaries as
    mappings. *)
Fixpoint eqb (x y : value) {struct x} : bool :=
  match x, y with
  | VAtom a, VAtom b => eqb_scalar a b
  | VList l, VList m =>
      (fix all2 (l : list value) (m : list value) {struct l} : bool :=
         match l, m with
         | [], [] => true
         | a :: l', b :: m' => eqb a b && all2 l' m'
         | _, _ => false
         end) l m
  | VDict d, VDict e =>
      (length d =? length e)%nat
      && (fix items (d : list (string * value)) {struct d} : bool :=
            match d with
            | [] => true
            | (k, v) :: d' =>
                match assoc k e with
                | Some w => eqb v w
                | None => false
                end && items d'
            end) d
  | _, _ => false
  end.

End Py.

(** ** Clock *)

(** What [datetime.now()] returns, as far as [now_iso] reads it. *)
Record datetime : Type := {
  year : nat; month : nat; day : nat;
  hour : nat; minute : nat; second : nat
}.

Definition decimal (n : nat) : string := NilZero.string_of_uint (Nat.to_uint n).

Definition pad2 (n : nat) : string :=
  if (n <? 10)%nat then "0" ++ decimal n else decimal n.

Definition pad4 (n : nat) : string :=
  if (n <? 10)%nat then "000" ++ decimal n
  else if (n <? 100)%nat then "00" ++ decimal n
  else if (n <? 1000)%nat then "0" ++ decimal n
  else decimal n.

(** [now_iso()]: [datetime.now().strftime("%Y-%m-%d %H:%M:%S")]. *)
Definition now_iso (d : datetime) : string :=
  pad4 (year d) ++ "-" ++ pad2 (month d) ++ "-" ++ pad2 (day d) ++ " "
  ++ pad2 (hour d) ++ ":" ++ pad2 (minute d) ++ ":" ++ pad2 (second d).

(** ** Raw option records *)

(** The [blockchainMetadata] object of a question.  Header fields and the
    category hold a string or are absent/null ([None]); the end time and the
    parent identifier are any JSON scalar, [SNone] when absent. *)
Record metadata : Type := {
  category : option string;
  questionHeader : option string;
  parentQuestionHeader : option string;
  questionHeaderExpanded : option string;
  questionEndTime : scalar;
  parentQuestionId : scalar
}.

(** One element of the [questions] array. *)
Record question : Type := {
  questionId : scalar;
  isSettled : scalar;
  yesTokenMarketId : scalar;
  noTokenMarketId : scalar;
  blockchainMetadata : option metadata
}.

(** [{}] read through [.get]. *)
Definition no_metadata : metadata :=
  {| category := None; questionHeader := None; parentQuestionHeader := None;
     questionHeaderExpanded := None; questionEndTime := SNone;
     parentQuestionId := SNone |}.

(** [q.get("blockchainMetadata") or {}]. *)
Definition bm_of (q : question) : metadata :=
  match blockchainMetadata q with
  | Some bm => bm
  | None => no_metadata
  end.

(** The lower-cased, space-joined header text the filter searches. *)
Definition headers_of (bm : metadata) : string :=
  Text.lower
    (Text.join_space
       [Py.or_empty (questionHeader bm);
        Py.or_empty (parentQuestionHeader bm);
        Py.or_empty (questionHeaderExpanded bm)]).

(** [is_upcoming_match_option] (watcher) and [looks_like_upcoming_match]
    (cron); [now_ts] is [int(datetime.now(timezone.utc).timestamp())]. *)
Definition is_upcoming_match_option (q : question) (now_ts : Z) : bool :=
  let bm := bm_of q in
  let category := Text.lower (Py.or_empty (category bm)) in
  let headers := headers_of bm in
  if negb (String.eqb category "football") then false
  else if negb (Text.contains "match result" headers) then false
  else if match isSettled q with SBool true => true | _ => false end
  then false
  else
    match Py.int (Py.or_zero (questionEndTime bm)) with
    | None => false
    | Some end_ts => end_ts >? now_ts
    end.

Definition looks_like_upcoming_match (q : question) (now_ts : Z) : bool :=
  is_upcoming_match_option q now_ts.

(** ** Market groups and snapshots *)

(** A market group is the dictionary the normaliser builds (or the one read
    back from the snapshot file), a snapshot maps the match header to its
    group. *)
Abbreviation group := (gmap string value).
Abbreviation snapshot := (gmap string (gmap string value)).

(** [d.get(k)]: [None] when the key is missing. *)
Definition get (k : string) (d : group) : value :=
  match d !! k with
  | Some v => v
  | None => VNone
  end.

(** [d.get(k, [])]. *)
Definition get_or_list (k : string) (d : group) : value :=
  match d !! k with
  | Some v => v
  | None => VList []
  end.

(** [g["options"].append(o)]; a group whose [options] is not a list (never
    built by the normaliser) is left as it is. *)
Definition append_option (o : value) (g : group) : group :=
  match g !! "options" with
  | Some (VList l) => <["options" := VList (l ++ [o])]> g
  | _ => g
  end.

(** [tradable = bool(yes) and bool(no) and str(yes) != "0" and
    str(no) != "0"]. *)
Definition tradable (yes no : scalar) : bool :=
  Py.truthy yes && Py.truthy no
  && negb (String.eqb (Py.str yes) "0") && negb (String.eqb (Py.str no) "0").

(** The option dictionary appended for question [q]. *)
Definition option_of (q : question) : value :=
  let bm := bm_of q in
  let yes := yesTokenMarketId q in
  let no := noTokenMarketId q in
  let title :=
    match questionHeaderExpanded bm with
    | Some h => if String.eqb h "" then Py.or_empty (questionHeader bm) else h
    | None => Py.or_empty (questionHeader bm)
    end in
  VDict
    [("questionId", VStr (Py.str (questionId q)));
     ("title", VStr (Text.strip title));
     ("yesTokenMarketId", VStr (if Py.truthy yes then Py.str yes else ""));
     ("noTokenMarketId", VStr (if Py.truthy no then Py.str no else ""));
     ("option_is_tradable", VBool (tradable yes no))].

(** An option dictionary whose [option_is_tradable] is [True]. *)
Definition option_is_tradable (o : value) : bool :=
  match o with
  | VDict d =>
      match Py.assoc "option_is_tradable" d with
      | Some v => Py.truthy_value v
      | None => false
      end
  | _ => false
  end.

(** What a run appends to the removal log for one key: the single-run
    variant writes the key with [json.dumps] of the stored group, the
    long-running variant writes the key with a reason text. *)
Inductive removal_payload : Type :=
  | FullRecord (g : group)
  | ReasonText (reason : string).

Record removal_entry : Type := {
  removed_key : string;
  payload : removal_payload
}.

(** The outcome of fetching the questions: [requests] raised, or the
    [questions] array came back. *)
Inductive fetched : Type :=
  | FetchFailed (e : string)
  | Fetched (questions : list question).

(** Keys are ordered as [sorted] orders strings. *)
Definition key_le (a b : string) : Prop := String.leb a b = true.

#[global] Instance key_le_dec : RelDecision key_le.
Proof. intros a b. unfold key_le. apply _. Defined.

(** [sorted(list(a - b))] for two key sets. *)
Definition sorted_difference (a b : gset string) : list string :=
  merge_sort key_le (elements (a ∖ b)).

Definition newline : string := String (ascii_of_nat 10) "".

(** ["\n".join(lines)]. *)
Fixpoint join_lines (lines : list string) : string :=
  match lines with
  | [] => ""
  | [l] => l
  | l :: rest => l ++ newline ++ join_lines rest
  end.

Section Programs.

(** Two functions of the Python library are left open:
    [datetime.fromtimestamp(ts, tz=timezone.utc).isoformat()
     .replace("+00:00", "Z")], with [""] when it raises, and
    [json.dumps(v, sort_keys=True)]. *)
Variable iso_of_unix : Z -> string.
Variable json_dumps_sorted : value -> string.

(** [utc_iso_from_unix(end_ts) if end_ts else ""] (watcher) and
    [unix_to_iso(end_ts) if end_ts else ""] (cron). *)
Definition end_time_iso (end_ts : option Z) : string :=
  match end_ts with
  | Some n => if n =? 0 then "" else iso_of_unix n
  | None => ""
  end.

(** *** Normaliser *)

(** The dictionary a group is created with. *)
Definition new_group (parent_header : string) (parent_id : scalar)
    (end_ts : option Z) : group :=
  <["match_header" := VStr parent_header]>
  (<["slug" := VStr (slugify parent_header)]>
  (<["multi_question_id" := VStr (Py.str parent_id)]>
  (<["options" := VList []]>
  (<["questionEndTime" :=
       match end_ts with Some n => VInt n | None => VNone end]>
  (<["questionEndTime_iso" := VStr (end_time_iso end_ts)]>
  (<["is_approved" := VBool false]> ∅)))))).

(** One turn of the loop [for q in candidates]. *)
Definition add_candidate (groups : snapshot) (q : question) : snapshot :=
  let bm := bm_of q in
  let parent_header := Py.or_empty (parentQuestionHeader bm) in
  let parent_id := parentQuestionId bm in
  if String.eqb parent_header "" || negb (Py.truthy parent_id) then groups
  else
    let key := Text.strip parent_header in
    let end_ts := Py.int (Py.or_zero (questionEndTime bm)) in
    let groups :=
      match groups !! key with
      | Some _ => groups
      | None => <[key := new_group parent_header parent_id end_ts]> groups
      end in
    let yes := yesTokenMarketId q in
    let no := noTokenMarketId q in
    let groups := alter (append_option (option_of q)) key groups in
    if tradable yes no
    then alter (<["is_approved" := VBool true]>) key groups
    else groups.

(** The groups after the loop has consumed [candidates]. *)
Definition group_candidates (candidates : list question) : snapshot :=
  foldl add_candidate ∅ candidates.

(** [build_live_snapshot] (watcher) and [build_current_matches_snapshot]
    (cron) on the fetched [questions]. *)
Definition build_live_snapshot (questions : list question) (now_ts : Z)
    (require_approved : bool) : snapshot :=
  let candidates :=
    List.filter (fun q => is_upcoming_match_option q now_ts) questions in
  let groups := group_candidates candidates in
  if require_approved
  then filter (fun kv => Py.truthy_value (get "is_approved" kv.2) = true)
              groups
  else groups.

Definition build_current_matches_snapshot := build_live_snapshot.

(** *** Reconciliation *)

(** One turn of the loop that carries [first_detected_at] over. *)
Definition carry_over (saved : snapshot) (k : string) (current : snapshot)
  : snapshot :=
  match saved !! k with
  | Some old =>
      match old !! "first_detected_at" with
      | Some t => alter (<["first_detected_at" := t]>) k current
      | None => current
      end
  | None => current
  end.

Definition carry_over_all (saved current : snapshot) : snapshot :=
  set_fold (carry_over saved) current (dom current).

(** [m["first_detected_at"] = now_str] for [m = current[k]]. *)
Definition stamp (now_str : string) (k : string) (current : snapshot)
  : snapshot :=
  alter (<["first_detected_at" := VStr now_str]>) k current.

(** What the single run leaves behind; console lines that report the
    outcome of a send are left out. *)
Record run_result : Type := {
  run_new_keys : list string;
  run_removed_keys : list string;
  run_console : list string;
  run_alerts : list (string * group);
  run_removal_log : list removal_entry;
  run_persisted : option snapshot
}.

(** The loop [for k in new_keys] of both variants on the snapshot: stamp
    the group; the alert is rendered from the stamped group, which the
    result keeps instead of the text. *)
Definition stamp_new (now_str : string) (new_keys : list string)
    (current : snapshot) : snapshot :=
  foldl (fun cur k => stamp now_str k cur) current new_keys.

Definition alerts_for (new_keys : list string) (current : snapshot)
  : list (string * group) :=
  omap (fun k => (fun m => (k, m)) <$> current !! k) new_keys.

(** [run_once] from the comparison of the key sets on, for a fetch that
    succeeded. *)
Definition run_once_reconcile (saved current : snapshot) (now : datetime)
  : run_result :=
  let saved_keys := dom saved in
  let current_keys := dom current in
  let new_keys := sorted_difference current_keys saved_keys in
  let removed_keys := sorted_difference saved_keys current_keys in
  let current := carry_over_all saved current in
  let now_str := now_iso now in
  let current := stamp_new now_str new_keys current in
  {| run_new_keys := new_keys;
     run_removed_keys := removed_keys;
     run_console :=
       ["run start";
        if Text.is_nil new_keys then "no new markets"
        else "new " ++ decimal (length new_keys) ++ " markets"]
       ++ (if Text.is_nil removed_keys then []
           else ["removed " ++ decimal (length removed_keys) ++ " markets"])
       ++ ["run done"];
     run_alerts := alerts_for new_keys current;
     run_removal_log :=
       (fun k => {| removed_key := k;
                    payload := FullRecord (default ∅ (saved !! k)) |})
         <$> removed_keys;
     run_persisted := Some current |}.

(** [run_once]. *)
Definition run_once (saved : snapshot) (fetch : fetched) (now_ts : Z)
    (require_approved : bool) (now : datetime) : run_result :=
  match fetch with
  | FetchFailed e =>
      {| run_new_keys := []; run_removed_keys := [];
         run_console := ["run start"; "fetch failed: " ++ e];
         run_alerts := []; run_removal_log := [];
         run_persisted := None |}
  | Fetched questions =>
      run_once_reconcile saved
        (build_current_matches_snapshot questions now_ts require_approved)
        now
  end.

(** What one poll of the long-running variant leaves behind. *)
Record poll_result : Type := {
  poll_new_keys : list string;
  poll_alerts : list (string * group);
  poll_removal_log : list removal_entry;
  poll_persisted : snapshot;
  poll_saved : snapshot
}.

(** The body of the [try] in [watcher_loop] up to [saved = current], for
    a fetch that succeeded.  The assignments [saved[k] = m] go to the
    old dictionary, which [saved = current] then drops. *)
Definition watcher_poll (saved current : snapshot) (now : datetime)
  : poll_result :=
  let current_keys := dom current in
  let saved_keys := dom saved in
  let current := carry_over_all saved current in
  let new_keys := sorted_difference current_keys saved_keys in
  let now_str := now_iso now in
  let current := stamp_new now_str new_keys current in
  {| poll_new_keys := new_keys;
     poll_alerts := alerts_for new_keys current;
     poll_removal_log := [];
     poll_persisted := current;
     poll_saved := current |}.

(** *** Periodic validation *)

Definition removal_reason : string := "no longer approved/present".

(** The three comparisons of [validate_snapshot]. *)
Definition end_time_differs (saved_info live_info : group) : bool :=
  negb (Py.eqb (get "questionEndTime" saved_info)
               (get "questionEndTime" live_info)).

Definition options_differ (saved_info live_info : group) : bool :=
  negb (String.eqb (json_dumps_sorted (get_or_list "options" saved_info))
                   (json_dumps_sorted (get_or_list "options" live_info))).

Definition approval_differs (saved_info live_info : group) : bool :=
  negb (Py.eqb (get "is_approved" saved_info) (get "is_approved" live_info)).

Definition changed (saved_info live_info : group) : bool :=
  end_time_differs saved_info live_info
  || options_differ saved_info live_info
  || approval_differs saved_info live_info.

(** The three conditional assignments to [saved_info]. *)
Definition refresh (saved_info live_info : group) : group :=
  let s1 :=
    if end_time_differs saved_info live_info
    then <["questionEndTime_iso" := get "questionEndTime_iso" live_info]>
         (<["questionEndTime" := get "questionEndTime" live_info]>
            saved_info)
    else saved_info in
  let s2 :=
    if options_differ s1 live_info
    then <["options" := get_or_list "options" live_info]> s1
    else s1 in
  if approval_differs s2 live_info
  then <["is_approved" := get "is_approved" live_info]> s2
  else s2.

(** The state of the loop [for key in list(saved.keys())]. *)
Record validation_state : Type := {
  vs_saved : snapshot;
  vs_removed : list (string * string);
  vs_updated : list string
}.

(** One turn of that loop.  [saved_info] is the stored dictionary itself,
    so the assignments reach [saved] whether or not [changed] is set; the
    fresh [{}] of [saved.get(key, {})] is stored only by
    [saved[key] = saved_info]. *)
Definition validate_key (live : snapshot) (st : validation_state)
    (key : string) : validation_state :=
  match live !! key with
  | None =>
      {| vs_saved := delete key (vs_saved st);
         vs_removed := vs_removed st ++ [(key, removal_reason)];
         vs_updated := vs_updated st |}
  | Some live_info =>
      match vs_saved st !! key with
      | Some saved_info =>
          {| vs_saved := <[key := refresh saved_info live_info]> (vs_saved st);
             vs_removed := vs_removed st;
             vs_updated :=
               if changed saved_info live_info
               then vs_updated st ++ [key] else vs_updated st |}
      | None =>
          if changed ∅ live_info
          then {| vs_saved := <[key := refresh ∅ live_info]> (vs_saved st);
                  vs_removed := vs_removed st;
                  vs_updated := vs_updated st ++ [key] |}
          else st
      end
  end.

(** What a validation pass leaves behind. *)
Record validation_result : Type := {
  val_returned : snapshot;
  val_console : list string;
  val_removal_log : list removal_entry;
  val_updated : list string;
  val_persisted : option snapshot;
  val_summary : option string
}.

Definition summary_text (removed : list (string * string))
    (updated : list string) : string :=
  let removed_lines : list string :=
    if Text.is_nil removed then []
    else ("Removed " ++ decimal (length removed)
          ++ " markets no longer approved:")
         :: ((fun r => "- " ++ r.1) <$> take 20 removed) in
  let updated_lines : list string :=
    if Text.is_nil updated then []
    else ("Updated " ++ decimal (length updated)
          ++ " markets with fresh data:")
         :: ((fun u => "- " ++ u) <$> take 20 updated) in
  let lines := (removed_lines ++ updated_lines)%list in
  "*Validation summary*" ++ newline ++ join_lines lines.

(** [validate_snapshot] after a fetch that succeeded with [live]. *)
Definition validate_against (saved live : snapshot) : validation_result :=
  let st :=
    foldl (validate_key live)
          {| vs_saved := saved; vs_removed := []; vs_updated := [] |}
          (elements (dom saved)) in
  let touched :=
    negb (Text.is_nil (vs_removed st)) || negb (Text.is_nil (vs_updated st)) in
  {| val_returned := vs_saved st;
     val_console := [];
     val_removal_log :=
       (fun r => {| removed_key := r.1; payload := ReasonText r.2 |})
         <$> vs_removed st;
     val_updated := vs_updated st;
     val_persisted := if touched then Some (vs_saved st) else None;
     val_summary :=
       if touched
       then Some (summary_text (vs_removed st) (vs_updated st))
       else None |}.

(** [validate_snapshot]: an empty snapshot returns before any fetch. *)
Definition validate_snapshot (saved : snapshot) (fetch : fetched)
    (now_ts : Z) : validation_result :=
  if bool_decide (saved = ∅) then
    {| val_returned := ∅; val_console := []; val_removal_log := [];
       val_updated := []; val_persisted := None; val_summary := None |}
  else
    match fetch with
    | FetchFailed e =>
        {| val_returned := saved;
           val_console := ["[ERROR] validation fetch failed: " ++ e];
           val_removal_log := []; val_updated := [];
           val_persisted := None; val_summary := None |}
    | Fetched questions =>
        validate_against saved (build_live_snapshot questions now_ts true)
    end.

End Programs.

(** ** Auxiliary definitions of the proofs *)

(** The separators of a slug: everything that is not [a-z0-9]. *)
Definition is_separator (c : ascii) : bool := negb (Text.is_lower_alnum c).

(** What the two substitutions before [\s+] do to one character. *)
Definition blank_out (c : ascii) : ascii :=
  let c := if Ascii.eqb c ":" then " "%char else c in
  if Text.is_lower_alnum c || Text.is_space c then c else " "%char.


(** What the carry-over loop does to the group stored under [k]. *)
Definition carried (saved : snapshot) (k : string) (g : group) : group :=
  match saved !! k with
  | Some old =>
      match old !! "first_detected_at" with
      | Some t => <["first_detected_at" := t]> g
      | None => g
      end
  | None => g
  end.

(** The snapshot both variants persist after a fetch that succeeded. *)
Definition merged (saved current : snapshot) (now : datetime) : snapshot :=
  stamp_new (now_iso now) (sorted_difference (dom current) (dom saved))
    (carry_over_all saved current).

(** The removal-log entries written for key [k]. *)
Definition entries_for (k : string) (log : list removal_entry)
  : list removal_entry :=
  filter (fun e => removed_key e = k) log.

(** The questions the grouping loop does not skip. *)
Definition groupable (q : question) : bool :=
  negb (String.eqb (Py.or_empty (parentQuestionHeader (bm_of q))) ""
        || negb (Py.truthy (parentQuestionId (bm_of q)))).

(** The key a question is grouped under. *)
Definition group_key (q : question) : string :=
  Text.strip (Py.or_empty (parentQuestionHeader (bm_of q))).

(** What one turn of the grouping loop does to the group of the question. *)
Definition with_option (q : question) (g : group) : group :=
  let g := append_option (option_of q) g in
  if tradable (yesTokenMarketId q) (noTokenMarketId q)
  then <["is_approved" := VBool true]> g
  else g.

(** The shape of a group while the normaliser builds it: no
    [first_detected_at], a list of options, and an approval flag that is
    [True], or [False] with no tradable option in the list. *)
Definition group_built (g : group) : Prop :=
  g !! "first_detected_at" = None
  /\ exists l,
       g !! "options" = Some (VList l)
       /\ (g !! "is_approved" = Some (VBool true)
           \/ (g !! "is_approved" = Some (VBool false)
               /\ forall o, o ∈ l -> option_is_tradable o = false)).

Definition snapshot_built (groups : snapshot) : Prop :=
  forall k g, groups !! k = Some g -> group_built g.

Definition approved (groups : snapshot) (k : string) : Prop :=
  exists g, groups !! k = Some g /\ g !! "is_approved" = Some (VBool true).

(** Sample data for the closed instances below: one tradable option of the
    match "Alpha vs Beta", ending at 200. *)
Definition sample_question : question :=
  {| questionId := SInt 11;
     isSettled := SBool false;
     yesTokenMarketId := SStr "7";
     noTokenMarketId := SInt 8;
     blockchainMetadata :=
       Some {| category := Some "Football";
               questionHeader := Some "Alpha wins";
               parentQuestionHeader := Some " Alpha vs Beta: Match Result ";
               questionHeaderExpanded := None;
               questionEndTime := SStr "200";
               parentQuestionId := SInt 5 |} |}.

Definition sample_key : string := "Alpha vs Beta: Match Result".

Definition sample_now : datetime :=
  {| year := 2025; month := 3; day := 9;
     hour := 7; minute := 0; second := 59 |}.

Definition sample_iso (ts : Z) : string := "1970-01-01T00:03:20Z".

(** What the validation loop leaves under a key it visits: nothing when
    the fresh snapshot lacks the key, the refreshed group otherwise. *)
Definition validated_entry (json_dumps_sorted : value -> string)
    (stored fresh : option group) : option group :=
  match fresh with
  | None => None
  | Some live_info =>
      match stored with
      | Some saved_info => Some (refresh json_dumps_sorted saved_info live_info)
      | None =>
          if changed json_dumps_sorted ∅ live_info
          then Some (refresh json_dumps_sorted ∅ live_info)
          else None
      end
  end.

(** The keys the validation loop records as updated. *)
Definition key_changed (json_dumps_sorted : value -> string)
    (live saved : snapshot) (k : string) : bool :=
  match live !! k with
  | Some live_info =>
      changed json_dumps_sorted (default ∅ (saved !! k)) live_info
  | None => false
  end.

(** The fields [validate_snapshot] may assign. *)
Definition tracked_fields : list string :=
  ["questionEndTime"; "questionEndTime_iso"; "options"; "is_approved"].

(** The header text of a question before lower-casing: the three header
    fields put end to end, and the same fields joined by single spaces (the
    text [is_upcoming_match_option] searches). *)
Definition headers_concatenated (bm : metadata) : string :=
  Py.or_empty (questionHeader bm)
  ++ Py.or_empty (parentQuestionHeader bm)
  ++ Py.or_empty (questionHeaderExpanded bm).

Definition headers_space_joined (bm : metadata) : string :=
  Text.join_space
    [Py.or_empty (questionHeader bm);
     Py.or_empty (parentQuestionHeader bm);
     Py.or_empty (questionHeaderExpanded bm)].

(** The filter in words, for a given reading of "the header text": category
    "football" up to case, the phrase "match result" in the header text up
    to case, settlement flag not true, end time an integer after [now_ts]. *)
Definition passes_filter (header_text : metadata -> string) (q : question)
    (now_ts : Z) : Prop :=
  Text.lower (Py.or_empty (category (bm_of q))) = "football"
  /\ Text.contains "match result" (Text.lower (header_text (bm_of q))) = true
  /\ isSettled q <> SBool true
  /\ exists n, Py.int (questionEndTime (bm_of q)) = Some n /\ n > now_ts.

(** A football question whose phrase "match result" spans two header
    fields. *)
Definition spanning_question : question :=
  {| questionId := SInt 12;
     isSettled := SBool false;
     yesTokenMarketId := SStr "7";
     noTokenMarketId := SStr "8";
     blockchainMetadata :=
       Some {| category := Some "football";
               questionHeader := Some "Football Match";
               parentQuestionHeader := Some "Result: Alpha vs Beta";
               questionHeaderExpanded := None;
               questionEndTime := SInt 200;
               parentQuestionId := SInt 5 |} |}.

(** The shape of a slug read from the left: only [a-z0-9] and hyphens, no
    hyphen right after a hyphen and none at the end.  [after_hyphen] tells
    that the previous character was a hyphen (or that the text starts
    here). *)
Fixpoint slug_tail (after_hyphen : bool) (s : list ascii) : bool :=
  match s with
  | [] => negb after_hyphen
  | c :: s' =>
      if Text.is_hyphen c then negb after_hyphen && slug_tail true s'
      else Text.is_lower_alnum c && slug_tail false s'
  end.

(** A slug is empty or starts with an alphanumeric and has the shape
    above. *)
Definition slug_shaped (s : list ascii) : bool :=
  Text.is_nil s || slug_tail true s.

(** The candidates that the grouping loop files under key [k], in input
    order. *)
Definition members (k : string) (candidates : list question)
  : list question :=
  List.filter (fun q => groupable q && bool_decide (group_key q = k))
    candidates.

(** The group created when [q] is the first candidate of its key. *)
Definition first_group (iso_of_unix : Z -> string) (q : question) : group :=
  new_group iso_of_unix
    (Py.or_empty (parentQuestionHeader (bm_of q)))
    (parentQuestionId (bm_of q))
    (Py.int (Py.or_zero (questionEndTime (bm_of q)))).

Definition tradable_question (q : question) : bool :=
  tradable (yesTokenMarketId q) (noTokenMarketId q).

(** The questions that pass the filter. *)
Definition candidates_of (questions : list question) (now_ts : Z)
  : list question :=
  List.filter (fun q => is_upcoming_match_option q now_ts) questions.

(** The keys of a freshly built group. *)
Definition group_fields : list string :=
  ["match_header"; "slug"; "multi_question_id"; "options";
   "questionEndTime"; "questionEndTime_iso"; "is_approved"].

(** Two options of the sample match, the second one not tradable. *)
Definition sample_sibling : question :=
  {| questionId := SInt 12;
     isSettled := SNone;
     yesTokenMarketId := SStr "0";
     noTokenMarketId := SInt 9;
     blockchainMetadata :=
       Some {| category := Some "football";
               questionHeader := Some "Beta wins";
               parentQuestionHeader := Some "Alpha vs Beta: Match Result";
               questionHeaderExpanded := Some " Beta wins the match ";
               questionEndTime := SInt 300;
               parentQuestionId := SInt 6 |} |}.

(** ** Market links *)

(** [f"{v}"]: [str(v)]; the text of a list or a dictionary is left to
    [py_repr]. *)
Definition format_value (py_repr : value -> string) (v : value) : string :=
  match v with
  | VAtom a => Py.str a
  | _ => py_repr v
  end.

(** [build_market_url] of both variants; [base_market_url] and
    [referral_code] are the configured [BASE_MARKET_URL] and
    [REFERRAL_CODE]. *)
Definition build_market_url (base_market_url referral_code : string)
    (py_repr : value -> string) (m : group) : string :=
  let slug := get "slug" m in
  let mid := get "multi_question_id" m in
  if negb (Py.truthy_value slug) || negb (Py.truthy_value mid)
  then "(URL unavailable)"
  else base_market_url ++ "/" ++ format_value py_repr slug ++ "-"
       ++ format_value py_repr mid ++ "?referral=" ++ referral_code.

(** A side-market identifier that counts as assigned: not null, not false,
    not the number 0, not the empty text and not the text "0". *)
Definition assigned_id (x : scalar) : Prop :=
  match x with
  | SNone => False
  | SBool b => b = true
  | SInt z => z <> 0
  | SStr s => s <> "" /\ s <> "0"
  end.

(** ** Status message *)

(** The sort key [kv[1].get("first_detected_at") or ""].  Keys are compared
    as texts; [None] marks a timestamp that is neither empty nor a text,
    which the programs never write and whose comparison is outside this
    model. *)
Definition detected_key (g : group) : option string :=
  let v := get "first_detected_at" g in
  if Py.truthy_value v then
    match v with
    | VAtom (SStr s) => Some s
    | _ => None
    end
  else Some "".

(** [items.sort(key=..., reverse=True)] as the stable sort it is: keys in
    descending order, items with equal keys in their original order.  An
    item is put in front of the first item whose key is not greater. *)
Fixpoint insert_desc {A} (x : string * A) (l : list (string * A))
  : list (string * A) :=
  match l with
  | [] => [x]
  | y :: l' =>
      if String.ltb x.1 y.1 then y :: insert_desc x l' else x :: l
  end.

Definition sort_desc {A} (l : list (string * A)) : list (string * A) :=
  foldr insert_desc [] l.

(** The items of a snapshot, most recently detected first. *)
Definition sorted_by_detection (items : list (string * group))
  : option (list (string * group)) :=
  (fun keyed => (sort_desc keyed).*2)
    <$> mapM (fun kv => (fun s => (s, kv)) <$> detected_key kv.2) items.

(** [g.get("first_detected_at", "unknown")] inside an f-string. *)
Definition latest_time_text (py_repr : value -> string) (g : group)
  : string :=
  match g !! "first_detected_at" with
  | Some v => format_value py_repr v
  | None => "unknown"
  end.

Definition status_text (n : nat) (latest_header latest_time : string)
    (max_items : nat) (headers : list string) : string :=
  "Known upcoming approved Match Result markets: " ++ decimal n ++ newline
  ++ "Latest detected: " ++ latest_header ++ "  (at " ++ latest_time ++ ")"
  ++ newline ++ newline
  ++ "Recent (up to " ++ decimal max_items ++ "):" ++ newline
  ++ join_lines ((fun h => "- " ++ h) <$> headers).

(** [build_status_message]; [items] is [list(snapshot.items())], in the
    order of the dictionary, and [max_items] is not negative. *)
Definition build_status_message (py_repr : value -> string)
    (items : list (string * group)) (max_items : nat) : option string :=
  if Text.is_nil items
  then Some "No upcoming approved Match Result markets in snapshot."
  else
    match sorted_by_detection items with
    | Some ((latest_header, latest) :: rest) =>
        Some (status_text (length items) latest_header
                (latest_time_text py_repr latest) max_items
                (take max_items (((latest_header, latest) :: rest).*1)))
    | _ => None
    end.

(** The key used in the statements below. *)
Definition detection_key (kv : string * group) : string :=
  default "" (detected_key kv.2).

(** A timestamp as the programs write it: absent or a text. *)
Definition text_timestamp (g : group) : Prop :=
  g !! "first_detected_at" = None
  \/ exists s, g !! "first_detected_at" = Some (VStr s).

(** * Properties *)

(** ** The slug *)

Section Slug.
Import Text.

Lemma alnum_not_hyphen c : is_separator c = false -> is_hyphen c = false.
Proof.
  destruct c as [[] [] [] [] [] [] [] []]; vm_compute; intros;
    first [reflexivity | discriminate].
Qed.

Lemma space_is_separator c : is_space c = true -> is_separator c = true.
Proof.
  destruct c as [[] [] [] [] [] [] [] []]; vm_compute; intros;
    first [reflexivity | discriminate].
Qed.

Lemma blank_out_space c : is_space (blank_out c) = is_separator c.
Proof.
  destruct c as [[] [] [] [] [] [] [] []]; vm_compute; intros;
    first [reflexivity | discriminate].
Qed.

Lemma blank_out_keeps c : is_separator c = false -> blank_out c = c.
Proof.
  destruct c as [[] [] [] [] [] [] [] []]; vm_compute; intros;
    first [reflexivity | discriminate].
Qed.



(** A substitution of runs after a character-wise map that turns exactly
    the characters of [p] into characters of [q]. *)
Lemma sub_runs_from_map (p q : ascii -> bool) (g : ascii -> ascii) r b s :
  (forall c, q (g c) = p c) ->
  (forall c, p c = false -> g c = c) ->
  sub_runs_from q r b (map g s) = sub_runs_from p r b s.
Proof.
  intros Hq Hg. revert b.
  induction s as [|c s IH]; intros b; simpl; [reflexivity|].
  rewrite Hq. destruct (p c) eqn:Hc.
  - destruct b; rewrite IH; reflexivity.
  - rewrite IH, (Hg c Hc). reflexivity.
Qed.

Section Runs.
Variable p : ascii -> bool.
Hypothesis p_hyphen : forall c, p c = false -> is_hyphen c = false.

Local Abbreviation runs := (sub_runs_from p "-").

(** Collapsing hyphens after the runs of [p] became hyphens changes
    nothing. *)
Lemma collapse_after_runs b b' s :
  (b' = true -> b = true) ->
  sub_runs_from is_hyphen "-" b' (runs b s) = runs b s.
Proof.
  revert b b'. induction s as [|c s IH]; intros b b' Hb; simpl; [reflexivity|].
  destruct (p c) eqn:Hc.
  - destruct b.
    + apply IH. reflexivity.
    + destruct b'; [discriminate (Hb eq_refl)|].
      simpl. f_equal. apply IH. reflexivity.
  - simpl. rewrite (p_hyphen c Hc). f_equal. apply IH. discriminate.
Qed.

Lemma lstrip_runs b s : lstrip is_hyphen (runs b s) = runs true s.
Proof.
  revert b. induction s as [|c s IH]; intros b; simpl; [reflexivity|].
  destruct (p c) eqn:Hc.
  - destruct b; simpl; apply IH.
  - simpl. rewrite (p_hyphen c Hc). reflexivity.
Qed.

Variable w : ascii -> bool.
Hypothesis w_p : forall c, w c = true -> p c = true.

Lemma runs_lstrip s : runs true (lstrip w s) = runs true s.
Proof.
  induction s as [|c s IH]; simpl; [reflexivity|].
  destruct (w c) eqn:Hw; [|reflexivity].
  rewrite (w_p c Hw). exact IH.
Qed.

Lemma rstrip_runs b s :
  rstrip is_hyphen (runs b (rstrip w s)) = rstrip is_hyphen (runs b s).
Proof.
  revert b. induction s as [|c s IH]; intros b; [reflexivity|].
  cbn [rstrip]. destruct (w c && is_nil (rstrip w s)) eqn:Hcase.
  - apply andb_prop in Hcase as [Hw Hnil].
    destruct (rstrip w s) eqn:Hr; [|discriminate].
    pose proof (IH true) as Ht. cbn in Ht.
    cbn. rewrite (w_p c Hw).
    destruct b; cbn; rewrite <- Ht; reflexivity.
  - cbn [sub_runs_from]. destruct (p c).
    + destruct b; [apply IH|]. cbn [rstrip]. rewrite IH. reflexivity.
    + cbn [rstrip]. rewrite IH. reflexivity.
Qed.

(** Trimming hyphens after the substitution forgets both the flag and
    a [strip] of characters of [p] applied beforehand. *)
Lemma strip_runs b s :
  strip_list is_hyphen (runs b (strip_list w s))
  = rstrip is_hyphen (runs true s).
Proof.
  unfold strip_list. rewrite lstrip_runs, rstrip_runs, runs_lstrip.
  reflexivity.
Qed.


End Runs.

Lemma slugify_list_normal text :
  slugify_list text
  = rstrip is_hyphen
      (sub_runs_from is_separator "-" true (lower_list text)).
Proof.
  unfold slugify_list, sub_runs, sub_not_in, replace_char.
  rewrite map_map.
  rewrite (sub_runs_from_map is_separator is_space
             (fun c => if is_lower_alnum (if Ascii.eqb c ":" then " "%char else c)
                          || is_space (if Ascii.eqb c ":" then " "%char else c)
                       then (if Ascii.eqb c ":" then " "%char else c)
                       else " "%char)).
  - rewrite (collapse_after_runs is_separator alnum_not_hyphen false false)
      by discriminate.
    apply (strip_runs is_separator alnum_not_hyphen is_space space_is_separator).
  - exact blank_out_space.
  - exact blank_out_keeps.
Qed.


End Slug.


(** ** Reconciliation *)

Section Reconciliation.

Implicit Types (saved current : snapshot) (k j : string) (g : group).

Lemma lookup_alter_at (f : group -> group) (m : snapshot) k j :
  alter f k m !! j = if decide (k = j) then f <$> m !! j else m !! j.
Proof.
  destruct (decide (k = j)) as [->|Hne].
  - apply lookup_alter_eq.
  - by apply lookup_alter_ne.
Qed.

Lemma carried_idemp saved k g :
  carried saved k (carried saved k g) = carried saved k g.
Proof.
  unfold carried. destruct (saved !! k) as [old|]; [|reflexivity].
  destruct (old !! "first_detected_at"); [|reflexivity].
  apply insert_insert_eq.
Qed.

Lemma carry_over_lookup saved k current j :
  carry_over saved k current !! j
  = if decide (k = j) then carried saved k <$> current !! j
    else current !! j.
Proof.
  unfold carry_over, carried.
  destruct (saved !! k) as [old|].
  - destruct (old !! "first_detected_at").
    + apply lookup_alter_at.
    + case_decide; [|reflexivity]. by destruct (current !! j).
  - case_decide; [|reflexivity]. by destruct (current !! j).
Qed.

Lemma carry_over_foldr_lookup saved (l : list string) current j :
  foldr (carry_over saved) current l !! j
  = if decide (j ∈ l) then carried saved j <$> current !! j
    else current !! j.
Proof.
  induction l as [|k l IH]; cbn [foldr].
  - rewrite decide_False by apply not_elem_of_nil. reflexivity.
  - rewrite carry_over_lookup, IH.
    destruct (decide (k = j)) as [->|Hne].
    + rewrite (decide_True (P := j ∈ j :: l)) by left.
      case_decide; [|reflexivity].
      destruct (current !! j); simpl; [|reflexivity].
      by rewrite carried_idemp.
    + destruct (decide (j ∈ l)) as [Hin|Hnin].
      * rewrite (decide_True (P := j ∈ k :: l)) by (by right). reflexivity.
      * rewrite (decide_False (P := j ∈ k :: l)); [reflexivity|].
        intros [?|?]%elem_of_cons; congruence.
Qed.

(** The carry-over loop, key by key. *)
Lemma carry_over_all_lookup saved current j :
  carry_over_all saved current !! j = carried saved j <$> current !! j.
Proof.
  unfold carry_over_all, set_fold. simpl.
  rewrite carry_over_foldr_lookup.
  case_decide as Hin; [reflexivity|].
  rewrite elem_of_elements, not_elem_of_dom in Hin. by rewrite Hin.
Qed.

Lemma stamp_new_lookup now_str (l : list string) current j :
  stamp_new now_str l current !! j
  = if decide (j ∈ l)
    then <["first_detected_at" := VStr now_str]> <$> current !! j
    else current !! j.
Proof.
  unfold stamp_new. revert current.
  induction l as [|k l IH]; intros current; cbn [foldl].
  - rewrite decide_False by apply not_elem_of_nil. reflexivity.
  - rewrite IH. unfold stamp. rewrite lookup_alter_at.
    destruct (decide (k = j)) as [->|Hne].
    + rewrite (decide_True (P := j ∈ j :: l)) by left.
      case_decide; [|reflexivity].
      destruct (current !! j); simpl; [|reflexivity].
      by rewrite insert_insert_eq.
    + destruct (decide (j ∈ l)) as [Hin|Hnin].
      * rewrite (decide_True (P := j ∈ k :: l)) by (by right). reflexivity.
      * rewrite (decide_False (P := j ∈ k :: l)); [reflexivity|].
        intros [?|?]%elem_of_cons; congruence.
Qed.

Lemma elem_of_sorted_difference (a b : gset string) k :
  k ∈ sorted_difference a b ↔ k ∈ a ∧ k ∉ b.
Proof.
  unfold sorted_difference.
  rewrite merge_sort_Permutation, elem_of_elements. set_solver.
Qed.

Lemma NoDup_sorted_difference (a b : gset string) :
  NoDup (sorted_difference a b).
Proof.
  unfold sorted_difference. rewrite merge_sort_Permutation.
  apply NoDup_elements.
Qed.

Lemma sorted_difference_diag (a : gset string) : sorted_difference a a = [].
Proof.
  unfold sorted_difference.
  rewrite difference_diag_L, elements_empty. reflexivity.
Qed.

(** The merged snapshot, key by key: a key of the fresh snapshot that the
    old one lacks is stamped, a key of both gets the old timestamp when
    there is one. *)
Lemma merged_lookup saved current now j :
  merged saved current now !! j
  = match current !! j with
    | None => None
    | Some g =>
        match saved !! j with
        | None => Some (<["first_detected_at" := VStr (now_iso now)]> g)
        | Some _ => Some (carried saved j g)
        end
    end.
Proof.
  unfold merged. rewrite stamp_new_lookup, carry_over_all_lookup.
  destruct (current !! j) as [g|] eqn:Hc; simpl.
  - destruct (saved !! j) as [old|] eqn:Hs.
    + rewrite decide_False; [reflexivity|].
      rewrite elem_of_sorted_difference, !elem_of_dom. intros [_ []]. eauto.
    + rewrite decide_True.
      * unfold carried. by rewrite Hs.
      * rewrite elem_of_sorted_difference, elem_of_dom, not_elem_of_dom. eauto.
  - by case_decide.
Qed.

Lemma run_persisted_merged saved current now :
  run_persisted (run_once_reconcile saved current now)
  = Some (merged saved current now).
Proof. reflexivity. Qed.

Lemma poll_persisted_merged saved current now :
  poll_persisted (watcher_poll saved current now) = merged saved current now
  ∧ poll_saved (watcher_poll saved current now) = merged saved current now.
Proof. split; reflexivity. Qed.

End Reconciliation.

(** C1: for a key of both snapshots whose old group has a
    [first_detected_at], the snapshot persisted by either variant holds a
    group under that key whose [first_detected_at] is the old one. *)
Theorem first_detected_at_carried_over
    (saved current : snapshot) (now : datetime) (k : string)
    (old : group) (t : value) :
  saved !! k = Some old ->
  old !! "first_detected_at" = Some t ->
  k ∈ dom current ->
  exists snap m,
    run_persisted (run_once_reconcile saved current now) = Some snap
    /\ poll_persisted (watcher_poll saved current now) = snap
    /\ poll_saved (watcher_poll saved current now) = snap
    /\ snap !! k = Some m
    /\ m !! "first_detected_at" = Some t.
Proof.
  intros Hs Ht [g Hg]%elem_of_dom.
  exists (merged saved current now), (<["first_detected_at" := t]> g).
  repeat split.
  - rewrite merged_lookup, Hg, Hs. unfold carried. by rewrite Hs, Ht.
  - apply lookup_insert_eq.
Qed.

Lemma first_detected_at_carried_over_witness :
  exists snap m,
    run_persisted
      (run_once_reconcile
         {["A vs B" := {["first_detected_at" := VStr "2025-01-01 10:00:00"]}]}
         {["A vs B" := {["is_approved" := VBool true]}]}
         {| year := 2025; month := 3; day := 9;
            hour := 7; minute := 0; second := 59 |}) = Some snap
    /\ poll_persisted
         (watcher_poll
            {["A vs B" := {["first_detected_at" := VStr "2025-01-01 10:00:00"]}]}
            {["A vs B" := {["is_approved" := VBool true]}]}
            {| year := 2025; month := 3; day := 9;
               hour := 7; minute := 0; second := 59 |}) = snap
    /\ poll_saved
         (watcher_poll
            {["A vs B" := {["first_detected_at" := VStr "2025-01-01 10:00:00"]}]}
            {["A vs B" := {["is_approved" := VBool true]}]}
            {| year := 2025; month := 3; day := 9;
               hour := 7; minute := 0; second := 59 |}) = snap
    /\ snap !! "A vs B" = Some m
    /\ m !! "first_detected_at" = Some (VStr "2025-01-01 10:00:00").
Proof.
  apply (first_detected_at_carried_over _ _ _ "A vs B"
           {["first_detected_at" := VStr "2025-01-01 10:00:00"]}).
  - reflexivity.
  - reflexivity.
  - apply elem_of_dom. eexists. reflexivity.
Defined.

(** C6: reconciling a snapshot against itself yields no new key and no
    removed key, in the single run and in the poll of the long-running
    variant. *)
Theorem reconcile_self_no_changes (S : snapshot) (now : datetime) :
  run_new_keys (run_once_reconcile S S now) = []
  /\ run_removed_keys (run_once_reconcile S S now) = []
  /\ run_removal_log (run_once_reconcile S S now) = []
  /\ poll_new_keys (watcher_poll S S now) = [].
Proof.
  unfold run_once_reconcile, watcher_poll. simpl.
  rewrite sorted_difference_diag. repeat split; reflexivity.
Qed.

(** ** Normaliser *)

Section Normaliser.

Variable iso_of_unix : Z -> string.

Implicit Types (groups : snapshot) (q : question) (k j : string) (g : group).

Lemma foldl_preserves {A B} (P : A -> Prop) (f : A -> B -> A) (l : list B) a :
  P a -> (forall a b, P a -> P (f a b)) -> P (foldl f a l).
Proof.
  intros Ha Hf. revert a Ha.
  induction l as [|b l IH]; intros a Ha; simpl; [exact Ha|].
  apply IH, Hf, Ha.
Qed.

Lemma option_of_tradable q :
  option_is_tradable (option_of q)
  = tradable (yesTokenMarketId q) (noTokenMarketId q).
Proof. reflexivity. Qed.

(** One turn of the grouping loop, key by key. *)
Lemma add_candidate_lookup groups q j :
  add_candidate iso_of_unix groups q !! j
  = if groupable q && bool_decide (group_key q = j)
    then Some (with_option q
                 (default
                    (new_group iso_of_unix
                       (Py.or_empty (parentQuestionHeader (bm_of q)))
                       (parentQuestionId (bm_of q))
                       (Py.int (Py.or_zero (questionEndTime (bm_of q)))))
                    (groups !! j)))
    else groups !! j.
Proof.
  unfold add_candidate, groupable, group_key, with_option.
  destruct (String.eqb _ "" || negb _); [reflexivity|]. simpl.
  set (key := Text.strip _).
  destruct (bool_decide (key = j)) eqn:Hk.
  - apply bool_decide_eq_true in Hk. subst j.
    destruct (groups !! key) as [g0|] eqn:Hg;
      destruct (tradable _ _);
      rewrite ?lookup_alter_eq, ?lookup_insert_eq, ?Hg; reflexivity.
  - apply bool_decide_eq_false in Hk.
    destruct (groups !! key) as [g0|] eqn:Hg;
      destruct (tradable _ _);
      rewrite ?lookup_alter_ne, ?lookup_insert_ne by done; reflexivity.
Qed.

Lemma append_option_other o g (f : string) :
  f ≠ "options" -> append_option o g !! f = g !! f.
Proof.
  intros Hf. unfold append_option.
  destruct (g !! "options") as [[| |]|]; try reflexivity.
  by rewrite lookup_insert_ne.
Qed.

Lemma with_option_approved q g :
  g !! "is_approved" = Some (VBool true) ->
  with_option q g !! "is_approved" = Some (VBool true).
Proof.
  intros Hg. unfold with_option. destruct (tradable _ _).
  - apply lookup_insert_eq.
  - by rewrite append_option_other.
Qed.

Lemma with_option_tradable q g :
  tradable (yesTokenMarketId q) (noTokenMarketId q) = true ->
  with_option q g !! "is_approved" = Some (VBool true).
Proof. intros Ht. unfold with_option. rewrite Ht. apply lookup_insert_eq. Qed.

Lemma new_group_built h i e : group_built (new_group iso_of_unix h i e).
Proof.
  split; [reflexivity|]. exists []. split; [reflexivity|].
  right. split; [reflexivity|]. intros o Ho. by apply elem_of_nil in Ho.
Qed.

Lemma with_option_built q g : group_built g -> group_built (with_option q g).
Proof.
  intros (Hfda & l & Hopt & Happ).
  assert (Ho : append_option (option_of q) g
               = <["options" := VList (l ++ [option_of q])]> g).
  { unfold append_option. by rewrite Hopt. }
  unfold with_option. rewrite Ho.
  destruct (tradable _ _) eqn:Ht.
  - split; [by rewrite !lookup_insert_ne|].
    exists (l ++ [option_of q])%list. split.
    + rewrite lookup_insert_ne by done. apply lookup_insert_eq.
    + left. apply lookup_insert_eq.
  - split; [by rewrite lookup_insert_ne|].
    exists (l ++ [option_of q])%list. split; [apply lookup_insert_eq|].
    rewrite lookup_insert_ne by done.
    destruct Happ as [Hyes|[Hno Hall]]; [by left|right].
    split; [exact Hno|].
    intros o [Ho'| ->%list_elem_of_singleton]%elem_of_app.
    + by apply Hall.
    + by rewrite option_of_tradable.
Qed.

Lemma add_candidate_built groups q :
  snapshot_built groups -> snapshot_built (add_candidate iso_of_unix groups q).
Proof.
  intros Hb k g. rewrite add_candidate_lookup.
  destruct (groupable q && bool_decide (group_key q = k)).
  - intros [= <-]. apply with_option_built.
    destruct (groups !! k) as [g0|] eqn:Hg; simpl.
    + by apply (Hb k).
    + apply new_group_built.
  - apply Hb.
Qed.

Lemma add_candidate_approved groups q k :
  approved groups k -> approved (add_candidate iso_of_unix groups q) k.
Proof.
  intros (g & Hg & Ha). unfold approved. rewrite add_candidate_lookup, Hg.
  destruct (groupable q && bool_decide (group_key q = k)); simpl.
  - eexists. split; [reflexivity|]. by apply with_option_approved.
  - eauto.
Qed.

Lemma add_candidate_tradable groups q :
  groupable q = true ->
  tradable (yesTokenMarketId q) (noTokenMarketId q) = true ->
  approved (add_candidate iso_of_unix groups q) (group_key q).
Proof.
  intros Hgr Ht. unfold approved. rewrite add_candidate_lookup, Hgr.
  rewrite bool_decide_eq_true_2 by reflexivity. simpl.
  eexists. split; [reflexivity|]. by apply with_option_tradable.
Qed.

Lemma foldl_add_candidate_approved (l : list question) groups k :
  approved groups k -> approved (foldl (add_candidate iso_of_unix) groups l) k.
Proof.
  intros Ha.
  apply (foldl_preserves (fun groups => approved groups k)); [exact Ha|].
  intros a b. apply add_candidate_approved.
Qed.

Lemma group_candidates_built (l : list question) :
  snapshot_built (group_candidates iso_of_unix l).
Proof.
  apply (foldl_preserves snapshot_built).
  - intros k g Hg. by rewrite lookup_empty in Hg.
  - intros a b. apply add_candidate_built.
Qed.

Lemma group_candidates_tradable (l : list question) q :
  q ∈ l -> groupable q = true ->
  tradable (yesTokenMarketId q) (noTokenMarketId q) = true ->
  approved (group_candidates iso_of_unix l) (group_key q).
Proof.
  intros Hin Hgr Ht.
  apply list_elem_of_split in Hin as (l1 & l2 & ->).
  unfold group_candidates. rewrite foldl_app. cbn [foldl].
  apply foldl_add_candidate_approved. by apply add_candidate_tradable.
Qed.

Lemma build_live_snapshot_lookup (questions : list question) now_ts
    (require_approved : bool) k g :
  build_live_snapshot iso_of_unix questions now_ts require_approved !! k
  = Some g ->
  group_candidates iso_of_unix
    (List.filter (fun q => is_upcoming_match_option q now_ts) questions) !! k
  = Some g.
Proof.
  unfold build_live_snapshot. destruct require_approved; [|done].
  by intros [? _]%map_lookup_filter_Some.
Qed.

Lemma build_live_snapshot_built (questions : list question) now_ts
    (require_approved : bool) :
  snapshot_built
    (build_live_snapshot iso_of_unix questions now_ts require_approved).
Proof.
  intros k g Hg%build_live_snapshot_lookup.
  exact (group_candidates_built _ k g Hg).
Qed.

Lemma build_live_snapshot_approved (questions : list question) now_ts
    (require_approved : bool) k :
  approved
    (group_candidates iso_of_unix
       (List.filter (fun q => is_upcoming_match_option q now_ts) questions)) k ->
  approved
    (build_live_snapshot iso_of_unix questions now_ts require_approved) k.
Proof.
  intros (g & Hg & Ha). exists g. split; [|exact Ha].
  unfold build_live_snapshot. destruct require_approved; [|done].
  apply map_lookup_filter_Some. split; [done|].
  simpl. unfold get. by rewrite Ha.
Qed.

End Normaliser.

(** C5: in every normalisation pass a group of the resulting snapshot that
    holds a tradable option has [is_approved] true; a tradable, groupable
    candidate makes its group approved whatever the order in which the
    questions are processed; and a group approved at some point of the loop
    stays approved for the rest of the pass. *)
Theorem approval_monotone
    (iso_of_unix : Z -> string) (questions : list question) (now_ts : Z)
    (require_approved : bool) :
  (forall k g l o,
      build_live_snapshot iso_of_unix questions now_ts require_approved !! k
      = Some g ->
      g !! "options" = Some (VList l) ->
      o ∈ l ->
      option_is_tradable o = true ->
      g !! "is_approved" = Some (VBool true))
  /\ (forall questions' q,
         questions' ≡ₚ questions ->
         q ∈ questions ->
         is_upcoming_match_option q now_ts = true ->
         groupable q = true ->
         tradable (yesTokenMarketId q) (noTokenMarketId q) = true ->
         exists g,
           build_live_snapshot iso_of_unix questions' now_ts require_approved
           !! group_key q = Some g
           /\ g !! "is_approved" = Some (VBool true))
  /\ (forall (processed rest : list question) k,
         approved (group_candidates iso_of_unix processed) k ->
         approved (group_candidates iso_of_unix (processed ++ rest)) k).
Proof.
  split; [|split].
  - intros k g l o Hg Hopt Ho Ht.
    destruct (build_live_snapshot_built _ _ _ _ k g Hg)
      as (_ & l' & Hopt' & [Hyes|[_ Hall]]); [exact Hyes|].
    rewrite Hopt in Hopt'. injection Hopt' as <-.
    rewrite (Hall o Ho) in Ht. discriminate.
  - intros questions' q Hperm Hin Hup Hgr Ht.
    apply build_live_snapshot_approved, group_candidates_tradable;
      [|exact Hgr|exact Ht].
    apply list_elem_of_In, filter_In. split; [|exact Hup].
    apply list_elem_of_In. by rewrite Hperm.
  - intros processed rest k Ha. unfold group_candidates. rewrite foldl_app.
    by apply foldl_add_candidate_approved.
Qed.

Lemma now_iso_nonempty (now : datetime) : now_iso now ≠ "".
Proof.
  unfold now_iso. destruct (pad4 (year now)); discriminate.
Qed.

(** C3: in a reconciliation at time [now], every key of the fresh snapshot
    that the old snapshot lacks gets [first_detected_at] equal to
    [now_iso now], which is not empty; and whenever a group of the merged
    snapshot has a [first_detected_at], either its key is new and the value
    is [now_iso now], or the value is the one of the old group under the
    same key. *)
Theorem new_key_first_detected_at
    (iso_of_unix : Z -> string) (saved : snapshot)
    (questions : list question) (now_ts : Z) (require_approved : bool)
    (now : datetime) :
  let current :=
    build_live_snapshot iso_of_unix questions now_ts require_approved in
  exists snap,
    run_persisted
      (run_once iso_of_unix saved (Fetched questions) now_ts
         require_approved now) = Some snap
    /\ poll_persisted (watcher_poll saved current now) = snap
    /\ (forall k, k ∈ dom current -> k ∉ dom saved ->
          exists m, snap !! k = Some m
                    /\ m !! "first_detected_at" = Some (VStr (now_iso now)))
    /\ now_iso now ≠ ""
    /\ (forall k m v,
          snap !! k = Some m ->
          m !! "first_detected_at" = Some v ->
          ((k ∈ dom current) /\ (k ∉ dom saved) /\ v = VStr (now_iso now))
          \/ (exists old, saved !! k = Some old
                          /\ old !! "first_detected_at" = Some v)).
Proof.
  intros current. exists (merged saved current now).
  split; [reflexivity|]. split; [reflexivity|]. split; [|split].
  - intros k [g Hg]%elem_of_dom Hs%not_elem_of_dom.
    rewrite merged_lookup, Hg, Hs. eexists. split; [reflexivity|].
    apply lookup_insert_eq.
  - apply now_iso_nonempty.
  - intros k m v. rewrite merged_lookup.
    destruct (current !! k) as [g|] eqn:Hg; [|discriminate].
    destruct (build_live_snapshot_built _ _ _ _ k g Hg) as [Hfda _].
    destruct (saved !! k) as [old|] eqn:Hs; intros [= <-].
    + unfold carried. rewrite Hs.
      destruct (old !! "first_detected_at") as [t|] eqn:Ht.
      * rewrite lookup_insert_eq. intros [= <-]. right. eauto.
      * rewrite Hfda. discriminate.
    + rewrite lookup_insert_eq. intros [= <-]. left.
      split; [by apply elem_of_dom|]. split; [by apply not_elem_of_dom|].
      reflexivity.
Qed.

(** C10: a key of both snapshots whose old group has no
    [first_detected_at] keeps the freshly built group as it is: the merged
    group has no [first_detected_at]. *)
Theorem surviving_key_without_timestamp
    (iso_of_unix : Z -> string) (saved : snapshot)
    (questions : list question) (now_ts : Z) (require_approved : bool)
    (now : datetime) (k : string) (old : group) :
  let current :=
    build_live_snapshot iso_of_unix questions now_ts require_approved in
  saved !! k = Some old ->
  old !! "first_detected_at" = None ->
  k ∈ dom current ->
  exists snap m,
    run_persisted
      (run_once iso_of_unix saved (Fetched questions) now_ts
         require_approved now) = Some snap
    /\ poll_persisted (watcher_poll saved current now) = snap
    /\ snap !! k = Some m
    /\ current !! k = Some m
    /\ m !! "first_detected_at" = None.
Proof.
  intros current Hs Ht [g Hg]%elem_of_dom.
  exists (merged saved current now), g.
  split; [reflexivity|]. split; [reflexivity|].
  split; [|split; [exact Hg|]].
  - rewrite merged_lookup, Hg, Hs. unfold carried. by rewrite Hs, Ht.
  - by destruct (build_live_snapshot_built _ _ _ _ k g Hg).
Qed.

Lemma surviving_key_without_timestamp_witness :
  let current := build_live_snapshot sample_iso [sample_question] 100 true in
  exists snap m,
    run_persisted
      (run_once sample_iso {[sample_key := {["slug" := VStr "alpha"]}]}
         (Fetched [sample_question]) 100 true sample_now) = Some snap
    /\ poll_persisted
         (watcher_poll {[sample_key := {["slug" := VStr "alpha"]}]}
            current sample_now) = snap
    /\ snap !! sample_key = Some m
    /\ current !! sample_key = Some m
    /\ m !! "first_detected_at" = None.
Proof.
  apply (surviving_key_without_timestamp sample_iso
           {[sample_key := {["slug" := VStr "alpha"]}]}
           [sample_question] 100 true sample_now sample_key
           {["slug" := VStr "alpha"]}).
  - reflexivity.
  - reflexivity.
  - apply elem_of_dom. eexists. vm_compute. reflexivity.
Defined.

(** ** Periodic validation *)

Section Validation.

Variable json_dumps_sorted : value -> string.

Implicit Types (saved live : snapshot) (st : validation_state)
  (k j key : string) (g : group).

Local Abbreviation changed' := (changed json_dumps_sorted).

Lemma filter_ext_in {A} (P Q : A -> Prop) `{!forall x, Decision (P x)}
    `{!forall x, Decision (Q x)} (l : list A) :
  (forall x, x ∈ l -> P x <-> Q x) -> filter P l = filter Q l.
Proof.
  induction l as [|x l IH]; intros Hext; [reflexivity|].
  rewrite !filter_cons.
  rewrite IH by (intros y Hy; apply Hext; by right).
  pose proof (Hext x (list_elem_of_here _ _)) as Hx.
  destruct (decide (P x)) as [HP|HP], (decide (Q x)) as [HQ|HQ];
    try reflexivity; exfalso; tauto.
Qed.

Lemma validate_key_saved live st key j :
  vs_saved (validate_key json_dumps_sorted live st key) !! j
  = if decide (key = j)
    then validated_entry json_dumps_sorted (vs_saved st !! j) (live !! j)
    else vs_saved st !! j.
Proof.
  unfold validate_key, validated_entry.
  destruct (decide (key = j)) as [->|Hne].
  - destruct (live !! j) as [li|]; simpl.
    + destruct (vs_saved st !! j) as [si|] eqn:Hs; simpl.
      * apply lookup_insert_eq.
      * destruct (changed' ∅ li); simpl; [apply lookup_insert_eq|exact Hs].
    + apply lookup_delete_eq.
  - destruct (live !! key) as [li|]; simpl.
    + destruct (vs_saved st !! key) as [si|]; simpl.
      * by apply lookup_insert_ne.
      * destruct (changed' ∅ li); simpl; [by apply lookup_insert_ne|done].
    + by apply lookup_delete_ne.
Qed.

Lemma validate_key_removed live st key :
  vs_removed (validate_key json_dumps_sorted live st key)
  = (vs_removed st
     ++ if live !! key is None then [(key, removal_reason)] else [])%list.
Proof.
  unfold validate_key. destruct (live !! key) as [li|]; simpl; [|reflexivity].
  destruct (vs_saved st !! key); simpl; [by rewrite app_nil_r|].
  destruct (changed' ∅ li); simpl; by rewrite app_nil_r.
Qed.

Lemma validate_key_updated live st key :
  vs_updated (validate_key json_dumps_sorted live st key)
  = (vs_updated st
     ++ if key_changed json_dumps_sorted live (vs_saved st) key
        then [key] else [])%list.
Proof.
  unfold validate_key, key_changed.
  destruct (live !! key) as [li|]; simpl; [|by rewrite app_nil_r].
  destruct (vs_saved st !! key) as [si|]; simpl.
  - destruct (changed' si li); simpl; by rewrite ?app_nil_r.
  - destruct (changed' ∅ li); simpl; by rewrite ?app_nil_r.
Qed.

(** The validation loop over keys visited once each. *)
Lemma validate_fold live (l : list string) st :
  NoDup l ->
  let st' := foldl (validate_key json_dumps_sorted live) st l in
  (forall j,
      vs_saved st' !! j
      = if decide (j ∈ l)
        then validated_entry json_dumps_sorted (vs_saved st !! j) (live !! j)
        else vs_saved st !! j)
  /\ vs_removed st'
     = (vs_removed st
        ++ ((fun k => (k, removal_reason))
              <$> filter (fun k => live !! k = None) l))%list
  /\ vs_updated st'
     = (vs_updated st
        ++ filter (fun k => key_changed json_dumps_sorted live (vs_saved st) k
                            = true) l)%list.
Proof.
  revert st. induction l as [|key l IH]; intros st Hnd; cbn [foldl].
  - split; [|split].
    + intros j. by rewrite decide_False by apply not_elem_of_nil.
    + by rewrite filter_nil, app_nil_r.
    + by rewrite filter_nil, app_nil_r.
  - apply NoDup_cons in Hnd as [Hkey Hnd].
    destruct (IH (validate_key json_dumps_sorted live st key) Hnd)
      as (Hsaved & Hrem & Hupd).
    split; [|split].
    + intros j. rewrite Hsaved, validate_key_saved.
      destruct (decide (key = j)) as [->|Hne].
      * rewrite (decide_False (P := j ∈ l)) by done.
        by rewrite (decide_True (P := j ∈ j :: l)) by left.
      * destruct (decide (j ∈ l)) as [Hin|Hnin].
        -- by rewrite (decide_True (P := j ∈ key :: l)) by (by right).
        -- rewrite (decide_False (P := j ∈ key :: l)); [done|].
           intros [?|?]%elem_of_cons; congruence.
    + rewrite Hrem, validate_key_removed, filter_cons, <- app_assoc.
      f_equal. destruct (live !! key) as [li|] eqn:Hl.
      * rewrite decide_False by done. reflexivity.
      * rewrite decide_True by done. reflexivity.
    + rewrite Hupd, validate_key_updated, filter_cons, <- app_assoc.
      f_equal.
      rewrite (filter_ext_in
                 (fun k => key_changed json_dumps_sorted live
                             (vs_saved (validate_key json_dumps_sorted live st key))
                             k = true)
                 (fun k => key_changed json_dumps_sorted live (vs_saved st) k
                           = true)).
      * destruct (key_changed json_dumps_sorted live (vs_saved st) key).
        -- rewrite decide_True by done. reflexivity.
        -- rewrite decide_False by done. reflexivity.
      * intros x Hx. unfold key_changed. rewrite validate_key_saved.
        rewrite decide_False; [done|]. intros ->. contradiction.
Qed.

Lemma validate_against_returned saved live j :
  val_returned (validate_against json_dumps_sorted saved live) !! j
  = match saved !! j with
    | Some si => validated_entry json_dumps_sorted (Some si) (live !! j)
    | None => None
    end.
Proof.
  unfold validate_against. cbn [val_returned].
  destruct (validate_fold live (elements (dom saved))
              {| vs_saved := saved; vs_removed := []; vs_updated := [] |}
              (NoDup_elements _)) as (Hs & _ & _).
  rewrite Hs. cbn [vs_saved].
  destruct (saved !! j) as [si|] eqn:Hj.
  - rewrite decide_True; [reflexivity|].
    apply elem_of_elements, elem_of_dom. eauto.
  - rewrite decide_False; [reflexivity|].
    rewrite elem_of_elements. by apply not_elem_of_dom.
Qed.

Lemma validate_against_updated saved live :
  val_updated (validate_against json_dumps_sorted saved live)
  = filter (fun k => key_changed json_dumps_sorted live saved k = true)
      (elements (dom saved)).
Proof.
  unfold validate_against. cbn [val_updated].
  destruct (validate_fold live (elements (dom saved))
              {| vs_saved := saved; vs_removed := []; vs_updated := [] |}
              (NoDup_elements _)) as (_ & _ & Hu).
  exact Hu.
Qed.

Lemma validate_against_removal_log saved live :
  val_removal_log (validate_against json_dumps_sorted saved live)
  = (fun k => {| removed_key := k; payload := ReasonText removal_reason |})
      <$> filter (fun k => live !! k = None) (elements (dom saved)).
Proof.
  unfold validate_against. cbn [val_removal_log].
  destruct (validate_fold live (elements (dom saved))
              {| vs_saved := saved; vs_removed := []; vs_updated := [] |}
              (NoDup_elements _)) as (_ & Hr & _).
  rewrite Hr. cbn [vs_removed app]. rewrite <- list_fmap_compose. reflexivity.
Qed.


End Validation.

Section Refresh.

Variable json_dumps_sorted : value -> string.

Implicit Types (si li : group) (f : string).

Lemma refresh_unchanged si li :
  changed json_dumps_sorted si li = false ->
  refresh json_dumps_sorted si li = si.
Proof.
  unfold changed, refresh.
  intros [[He Ho]%orb_false_elim Ha]%orb_false_elim.
  by rewrite He, Ho, Ha.
Qed.

(** The refreshed group, field by field. *)
Lemma refresh_lookup si li f :
  refresh json_dumps_sorted si li !! f
  = if decide (f = "questionEndTime") then
      if end_time_differs si li then Some (get "questionEndTime" li)
      else si !! f
    else if decide (f = "questionEndTime_iso") then
      if end_time_differs si li then Some (get "questionEndTime_iso" li)
      else si !! f
    else if decide (f = "options") then
      if options_differ json_dumps_sorted si li
      then Some (get_or_list "options" li)
      else si !! f
    else if decide (f = "is_approved") then
      if approval_differs si li then Some (get "is_approved" li)
      else si !! f
    else si !! f.
Proof.
  unfold refresh.
  set (s1 := if end_time_differs si li then _ else si).
  assert (Ho : options_differ json_dumps_sorted s1 li
               = options_differ json_dumps_sorted si li).
  { unfold options_differ, get_or_list, s1.
    destruct (end_time_differs si li); [|reflexivity].
    by rewrite !lookup_insert_ne. }
  rewrite Ho.
  set (s2 := if options_differ json_dumps_sorted si li then _ else s1).
  assert (Ha : approval_differs s2 li = approval_differs si li).
  { unfold approval_differs, get, s2, s1.
    destruct (options_differ json_dumps_sorted si li),
      (end_time_differs si li);
      by rewrite ?lookup_insert_ne. }
  rewrite Ha. unfold s2, s1.
  destruct (end_time_differs si li),
    (options_differ json_dumps_sorted si li), (approval_differs si li);
    repeat case_decide; subst;
    rewrite ?lookup_insert_eq, ?lookup_insert_ne by done;
    rewrite ?lookup_insert_eq, ?lookup_insert_ne by done;
    rewrite ?lookup_insert_eq, ?lookup_insert_ne by done;
    reflexivity.
Qed.

Lemma refresh_frame si li f :
  f ∉ tracked_fields -> refresh json_dumps_sorted si li !! f = si !! f.
Proof.
  intros Hf. rewrite refresh_lookup.
  repeat case_decide; try reflexivity; subst; exfalso; apply Hf;
    unfold tracked_fields; set_solver.
Qed.

End Refresh.



(** C9: when the fetch of the validator fails, [validate_snapshot] returns
    the saved snapshot as it was, writes nothing to the removal log, records
    no update, persists nothing, and (when it fetched at all, that is for a
    non-empty snapshot) reports the failure on the console and returns
    normally. *)
Theorem validate_fetch_failure_keeps_saved
    (iso_of_unix : Z -> string) (json_dumps_sorted : value -> string)
    (saved : snapshot) (e : string) (now_ts : Z) :
  let r :=
    validate_snapshot iso_of_unix json_dumps_sorted saved (FetchFailed e)
      now_ts in
  val_returned r = saved
  /\ val_removal_log r = []
  /\ val_updated r = []
  /\ val_persisted r = None
  /\ val_summary r = None
  /\ val_console r
     = if bool_decide (saved = ∅) then []
       else ["[ERROR] validation fetch failed: " ++ e].
Proof.
  unfold validate_snapshot.
  destruct (bool_decide (saved = ∅)) eqn:He; simpl.
  - apply bool_decide_eq_true in He. by subst.
  - repeat split; reflexivity.
Qed.

(** C2 as stated fails for the validator of the long-running variant: the
    entry written there for a removed key carries a reason text, not the
    stored group. *)
Lemma removal_log_full_record_counterexample :
  ~ (forall (json_dumps_sorted : value -> string) (saved fresh : snapshot)
            (k : string) (old : group),
        saved !! k = Some old ->
        fresh !! k = None ->
        entries_for k
          (val_removal_log (validate_against json_dumps_sorted saved fresh))
        = [{| removed_key := k; payload := FullRecord old |}]).
Proof.
  intros H.
  specialize (H (fun _ => "[]")
                {["Gamma vs Delta" :=
                    {["first_detected_at" := VStr "2025-01-01 10:00:00"]}]}
                ∅ "Gamma vs Delta"
                {["first_detected_at" := VStr "2025-01-01 10:00:00"]}
                eq_refl eq_refl).
  vm_compute in H. discriminate H.
Qed.

Lemma entries_for_fmap (f : string -> removal_entry) (l : list string)
    (k : string) :
  (forall x, removed_key (f x) = x) -> NoDup l -> k ∈ l ->
  entries_for k (f <$> l) = [f k].
Proof.
  intros Hf. unfold entries_for.
  induction l as [|x l IH]; intros Hnd Hin; [by apply elem_of_nil in Hin|].
  apply NoDup_cons in Hnd as [Hx Hnd].
  rewrite fmap_cons, filter_cons, Hf.
  destruct (decide (x = k)) as [->|Hne].
  - f_equal. clear IH Hin.
    induction l as [|y l IH]; [reflexivity|].
    rewrite fmap_cons, filter_cons, Hf.
    rewrite decide_False by (intros ->; apply Hx; left).
    apply IH.
    + intros Hk. apply Hx. by right.
    + by apply NoDup_cons in Hnd as [_ ?].
  - apply IH; [exact Hnd|].
    apply elem_of_cons in Hin as [->|Hin]; [contradiction|exact Hin].
Qed.

(** C2, amended: for a key of the old snapshot that the fresh one lacks, the
    single run writes exactly one removal-log entry, pairing the key with
    the old group's full field set; the validator of the long-running
    variant writes exactly one entry, pairing the key with the reason
    "no longer approved/present". *)
Theorem removal_log_one_entry_per_removed_key
    (json_dumps_sorted : value -> string) (saved fresh : snapshot)
    (now : datetime) (k : string) (old : group) :
  saved !! k = Some old ->
  fresh !! k = None ->
  entries_for k (run_removal_log (run_once_reconcile saved fresh now))
  = [{| removed_key := k; payload := FullRecord old |}]
  /\ entries_for k
       (val_removal_log (validate_against json_dumps_sorted saved fresh))
     = [{| removed_key := k;
           payload := ReasonText "no longer approved/present" |}].
Proof.
  intros Hs Hf. split.
  - unfold run_once_reconcile. cbn [run_removal_log].
    rewrite (entries_for_fmap
               (fun k => {| removed_key := k;
                            payload := FullRecord (default ∅ (saved !! k)) |})).
    + by rewrite Hs.
    + reflexivity.
    + apply NoDup_sorted_difference.
    + apply elem_of_sorted_difference. split.
      * apply elem_of_dom. eauto.
      * by apply not_elem_of_dom.
  - rewrite validate_against_removal_log.
    rewrite (entries_for_fmap
               (fun k => {| removed_key := k;
                            payload := ReasonText removal_reason |})).
    + reflexivity.
    + reflexivity.
    + apply NoDup_filter, NoDup_elements.
    + apply list_elem_of_filter. split; [exact Hf|].
      apply elem_of_elements, elem_of_dom. eauto.
Qed.

Lemma removal_log_one_entry_per_removed_key_witness :
  entries_for "Gamma vs Delta"
    (run_removal_log
       (run_once_reconcile
          {["Gamma vs Delta" := {["slug" := VStr "gamma-vs-delta"]}]} ∅
          sample_now))
  = [{| removed_key := "Gamma vs Delta";
        payload := FullRecord {["slug" := VStr "gamma-vs-delta"]} |}]
  /\ entries_for "Gamma vs Delta"
       (val_removal_log
          (validate_against (fun _ => "[]")
             {["Gamma vs Delta" := {["slug" := VStr "gamma-vs-delta"]}]} ∅))
     = [{| removed_key := "Gamma vs Delta";
           payload := ReasonText "no longer approved/present" |}].
Proof.
  apply (removal_log_one_entry_per_removed_key (fun _ => "[]")
           {["Gamma vs Delta" := {["slug" := VStr "gamma-vs-delta"]}]} ∅
           sample_now "Gamma vs Delta" {["slug" := VStr "gamma-vs-delta"]}).
  - reflexivity.
  - reflexivity.
Defined.

(** ** The filter *)

Lemma int_or_zero_after (v : scalar) (now_ts : Z) :
  0 <= now_ts ->
  (exists n, Py.int (Py.or_zero v) = Some n /\ n > now_ts)
  <-> (exists n, Py.int v = Some n /\ n > now_ts).
Proof.
  intros Hnow. unfold Py.or_zero.
  destruct (Py.truthy v) eqn:Ht; [reflexivity|].
  split.
  - intros (n & [= <-] & Hn). lia.
  - intros (n & Hv & Hn). exfalso.
    destruct v as [|b|z|s]; simpl in Ht, Hv.
    + discriminate.
    + subst b. injection Hv as <-. lia.
    + apply negb_false_iff, Z.eqb_eq in Ht. subst z.
      injection Hv as <-. lia.
    + apply negb_false_iff, String.eqb_eq in Ht. subst s. discriminate.
Qed.

Lemma is_upcoming_match_option_spec (q : question) (now_ts : Z) :
  is_upcoming_match_option q now_ts = true
  <-> Text.lower (Py.or_empty (category (bm_of q))) = "football"
      /\ Text.contains "match result" (headers_of (bm_of q)) = true
      /\ isSettled q <> SBool true
      /\ exists n, Py.int (Py.or_zero (questionEndTime (bm_of q))) = Some n
                   /\ n > now_ts.
Proof.
  unfold is_upcoming_match_option.
  destruct (String.eqb_spec
              (Text.lower (Py.or_empty (category (bm_of q)))) "football")
    as [Hc|Hc]; simpl.
  2: { split; [discriminate|]. intros [? _]. contradiction. }
  destruct (Text.contains "match result" (headers_of (bm_of q))); simpl.
  2: { split; [discriminate|]. intros (_ & ? & _). discriminate. }
  assert (Hset : (match isSettled q with SBool true => true | _ => false end)
                 = true <-> isSettled q = SBool true).
  { destruct (isSettled q) as [|[]| |]; split; congruence. }
  destruct (match isSettled q with SBool true => true | _ => false end).
  { split; [discriminate|]. intros (_ & _ & Hn & _).
    exfalso. apply Hn, Hset. reflexivity. }
  assert (Hns : isSettled q <> SBool true).
  { intros H. apply Hset in H. discriminate. }
  destruct (Py.int (Py.or_zero (questionEndTime (bm_of q)))) as [n|].
  - rewrite Z.gtb_gt. split.
    + intros Hn. repeat split; try done. exists n. split; [reflexivity|lia].
    + intros (_ & _ & _ & m & [= <-] & Hm). lia.
  - split; [discriminate|]. intros (_ & _ & _ & m & Hm & _). discriminate.
Qed.

(** C4 as stated fails: with the header fields put end to end, the phrase
    "match result" is absent from "Football Match" followed by
    "Result: Alpha vs Beta", yet the filter lets the question pass. *)
Lemma filter_concatenation_counterexample :
  ~ (is_upcoming_match_option spanning_question 100 = true
     <-> passes_filter headers_concatenated spanning_question 100).
Proof.
  intros [H _]. destruct (H eq_refl) as (_ & Hc & _).
  vm_compute in Hc. discriminate Hc.
Qed.

(** C4, amended: at a current time that is not negative, a question passes
    the filter of either variant if and only if its category is "football"
    up to case, its three header fields joined by single spaces contain
    "match result" up to case, its settlement flag is not true, and its end
    time is read by [int] as an integer strictly after the current time; so
    a "basketball" question, a question whose end time is the current time
    or earlier, and a question whose end time [int] rejects are excluded. *)
Theorem filter_characterisation (q : question) (now_ts : Z) :
  0 <= now_ts ->
  (is_upcoming_match_option q now_ts = true
   <-> passes_filter headers_space_joined q now_ts)
  /\ (looks_like_upcoming_match q now_ts = true
      <-> passes_filter headers_space_joined q now_ts)
  /\ (Text.lower (Py.or_empty (category (bm_of q))) = "basketball" ->
      is_upcoming_match_option q now_ts = false)
  /\ (forall n, Py.int (questionEndTime (bm_of q)) = Some n ->
                n <= now_ts ->
                is_upcoming_match_option q now_ts = false)
  /\ (Py.int (questionEndTime (bm_of q)) = None ->
      is_upcoming_match_option q now_ts = false).
Proof.
  intros Hnow.
  assert (Hiff : is_upcoming_match_option q now_ts = true
                 <-> passes_filter headers_space_joined q now_ts).
  { rewrite is_upcoming_match_option_spec. unfold passes_filter.
    rewrite (int_or_zero_after _ _ Hnow). reflexivity. }
  split; [exact Hiff|]. split; [exact Hiff|].
  split; [|split].
  - intros Hb. apply not_true_is_false. intros (Hc & _)%Hiff.
    rewrite Hb in Hc. discriminate.
  - intros n Hn Hle. apply not_true_is_false.
    intros (_ & _ & _ & m & Hm & Hgt)%Hiff.
    rewrite Hn in Hm. injection Hm as <-. lia.
  - intros Hn. apply not_true_is_false.
    intros (_ & _ & _ & m & Hm & _)%Hiff.
    rewrite Hn in Hm. discriminate.
Qed.

Lemma filter_characterisation_witness :
  (is_upcoming_match_option sample_question 100 = true
   <-> passes_filter headers_space_joined sample_question 100)
  /\ (looks_like_upcoming_match sample_question 100 = true
      <-> passes_filter headers_space_joined sample_question 100)
  /\ (Text.lower (Py.or_empty (category (bm_of sample_question)))
      = "basketball" ->
      is_upcoming_match_option sample_question 100 = false)
  /\ (forall n, Py.int (questionEndTime (bm_of sample_question)) = Some n ->
                n <= 100 ->
                is_upcoming_match_option sample_question 100 = false)
  /\ (Py.int (questionEndTime (bm_of sample_question)) = None ->
      is_upcoming_match_option sample_question 100 = false).
Proof.
  apply (filter_characterisation sample_question 100). lia.
Defined.

(** * Further properties *)

(** ** The shape of slugs *)

Section SlugShape.
Import Text.

Lemma stripped_runs_shape b s :
  let x := rstrip is_hyphen (sub_runs_from is_separator "-" b s) in
  x = [] \/ slug_tail b x = true.
Proof.
  revert b. induction s as [|c s IH]; intros b; [by left|].
  cbn [sub_runs_from]. destruct (is_separator c) eqn:Hc.
  - destruct b; [apply IH|].
    cbn [rstrip]. cbn.
    destruct (IH true) as [Hx|Hx].
    + rewrite Hx. by left.
    + destruct (rstrip is_hyphen (sub_runs_from is_separator "-" true s))
        eqn:Hr; [by left|].
      right. cbn [is_nil slug_tail]. cbn. exact Hx.
  - cbn [rstrip]. rewrite (alnum_not_hyphen c Hc). cbn [andb].
    right. cbn [slug_tail]. rewrite (alnum_not_hyphen c Hc).
    unfold is_separator in Hc. apply negb_false_iff in Hc. rewrite Hc.
    cbn [andb]. destruct (IH false) as [Hx|Hx]; [by rewrite Hx|exact Hx].
Qed.

Lemma slugify_list_shaped text : slug_shaped (slugify_list text) = true.
Proof.
  rewrite slugify_list_normal. unfold slug_shaped.
  destruct (stripped_runs_shape true (lower_list text)) as [Hx|Hx];
    rewrite Hx; [reflexivity|apply orb_true_r].
Qed.

Lemma slug_tail_chars b s c :
  slug_tail b s = true -> c ∈ s ->
  is_lower_alnum c = true \/ c = "-"%char.
Proof.
  revert b. induction s as [|d s IH]; intros b Hs Hin;
    [by apply elem_of_nil in Hin|].
  cbn [slug_tail] in Hs.
  apply elem_of_cons in Hin as [->|Hin].
  - destruct (is_hyphen d) eqn:Hd.
    + right. by apply Ascii.eqb_eq in Hd.
    + left. by apply andb_prop in Hs as [? _].
  - destruct (is_hyphen d); apply andb_prop in Hs as [_ Hs]; eauto.
Qed.

Lemma slug_tail_no_final_hyphen b s t :
  slug_tail b s = true -> s <> (t ++ ["-"%char])%list.
Proof.
  revert b s. induction t as [|d t IH]; intros b s Hs ->.
  - cbn in Hs. by destruct b.
  - cbn [app slug_tail] in Hs.
    destruct (is_hyphen d); apply andb_prop in Hs as [_ Hs];
      by eapply IH.
Qed.

Lemma slug_tail_no_double_hyphen b s t u :
  slug_tail b s = true -> s <> (t ++ "-"%char :: "-"%char :: u)%list.
Proof.
  revert b s. induction t as [|d t IH]; intros b s Hs ->.
  - cbn in Hs. by destruct b.
  - cbn [app slug_tail] in Hs.
    destruct (is_hyphen d); apply andb_prop in Hs as [_ Hs];
      by eapply IH.
Qed.

Lemma shaped_char_lower c :
  is_lower_alnum c = true \/ c = "-"%char -> lower_char c = c.
Proof.
  intros [H| ->]; [|reflexivity]. revert H.
  destruct c as [[] [] [] [] [] [] [] []]; vm_compute; intros;
    first [reflexivity | discriminate].
Qed.

Lemma slug_tail_lower b s : slug_tail b s = true -> lower_list s = s.
Proof.
  intros Hs. unfold lower_list.
  rewrite <- (map_id s) at 2. apply map_ext_in.
  intros c Hc%list_elem_of_In. apply shaped_char_lower.
  by apply (slug_tail_chars b s).
Qed.

Lemma hyphen_is_separator c : is_hyphen c = true -> is_separator c = true.
Proof. intros ->%Ascii.eqb_eq. reflexivity. Qed.

Lemma slug_tail_runs b s :
  slug_tail b s = true -> sub_runs_from is_separator "-" b s = s.
Proof.
  revert b. induction s as [|c s IH]; intros b Hs; [reflexivity|].
  cbn [slug_tail] in Hs. cbn [sub_runs_from].
  destruct (is_hyphen c) eqn:Hc.
  - apply andb_prop in Hs as [Hb Hs]. apply negb_true_iff in Hb. subst b.
    rewrite (hyphen_is_separator c Hc), (IH true Hs).
    by apply Ascii.eqb_eq in Hc as ->.
  - apply andb_prop in Hs as [Ha Hs]. unfold is_separator at 1.
    rewrite Ha. cbn. by rewrite (IH false Hs).
Qed.

Lemma slug_tail_rstrip b s :
  slug_tail b s = true -> rstrip is_hyphen s = s.
Proof.
  revert b. induction s as [|c s IH]; intros b Hs; [reflexivity|].
  cbn [slug_tail] in Hs. cbn [rstrip].
  destruct (is_hyphen c) eqn:Hc; apply andb_prop in Hs as [_ Hs];
    rewrite (IH _ Hs); [|reflexivity].
  destruct s; [discriminate Hs|reflexivity].
Qed.

Lemma slug_shaped_fixed s : slug_shaped s = true -> slugify_list s = s.
Proof.
  unfold slug_shaped. destruct s as [|c s]; [reflexivity|]. cbn [is_nil orb].
  intros Hs. rewrite slugify_list_normal.
  rewrite (slug_tail_lower true _ Hs), (slug_tail_runs true _ Hs).
  apply (slug_tail_rstrip true _ Hs).
Qed.

End SlugShape.

(** X1: a slug consists of lowercase alphanumerics and hyphens only, has no
    hyphen at either end and no two hyphens in a row. *)
Theorem slug_is_url_safe (text : string) :
  let slug := list_ascii_of_string (slugify text) in
  (forall c, c ∈ slug -> Text.is_lower_alnum c = true \/ c = "-"%char)
  /\ (forall t, slug <> ("-"%char :: t))
  /\ (forall t, slug <> (t ++ ["-"%char])%list)
  /\ (forall t u, slug <> (t ++ "-"%char :: "-"%char :: u)%list).
Proof.
  unfold slugify. rewrite list_ascii_of_string_of_list_ascii.
  pose proof (slugify_list_shaped (list_ascii_of_string text)) as Hs.
  unfold slug_shaped in Hs.
  destruct (slugify_list (list_ascii_of_string text)) as [|c s] eqn:Hslug.
  - cbn. repeat split.
    + intros c Hc. by apply elem_of_nil in Hc.
    + discriminate.
    + intros []; discriminate.
    + intros []; discriminate.
  - cbn [Text.is_nil orb] in Hs. cbn zeta. repeat split.
    + intros d. by apply (slug_tail_chars true).
    + intros t [= -> ->]. discriminate Hs.
    + intros t. by apply (slug_tail_no_final_hyphen true).
    + intros t u. by apply (slug_tail_no_double_hyphen true).
Qed.

(** X2: [slugify] is idempotent: the slug of a slug is the slug itself. *)
Theorem slugify_idempotent (text : string) :
  slugify (slugify text) = slugify text
  /\ slugify_header (slugify_header text) = slugify_header text.
Proof.
  unfold slugify_header, slugify.
  rewrite list_ascii_of_string_of_list_ascii.
  rewrite slug_shaped_fixed by apply slugify_list_shaped.
  split; reflexivity.
Qed.

(** ** The groups the normaliser builds *)

Section Groups.

Variable iso_of_unix : Z -> string.

Implicit Types (groups : snapshot) (q : question) (k f : string) (g : group)
  (cs : list question).

Local Abbreviation add_options :=
  (foldl (fun g q => with_option q g)).

Lemma foldl_add_candidate_lookup (l : list question) groups k :
  foldl (add_candidate iso_of_unix) groups l !! k
  = match members k l with
    | [] => groups !! k
    | q0 :: _ =>
        Some (add_options (default (first_group iso_of_unix q0) (groups !! k))
                (members k l))
    end.
Proof.
  revert groups. induction l as [|q l IH]; intros groups; [reflexivity|].
  cbn [foldl]. rewrite IH, add_candidate_lookup. unfold members.
  cbn [List.filter].
  destruct (groupable q && bool_decide (group_key q = k)); [|reflexivity].
  fold (members k l). destruct (members k l); reflexivity.
Qed.

Lemma group_candidates_lookup (l : list question) k :
  group_candidates iso_of_unix l !! k
  = match members k l with
    | [] => None
    | q0 :: _ =>
        Some (add_options (first_group iso_of_unix q0) (members k l))
    end.
Proof.
  unfold group_candidates. rewrite foldl_add_candidate_lookup.
  rewrite lookup_empty. reflexivity.
Qed.

Lemma with_option_other q g f :
  f ≠ "options" -> f ≠ "is_approved" -> with_option q g !! f = g !! f.
Proof.
  intros Ho Ha. unfold with_option.
  destruct (tradable _ _); rewrite ?lookup_insert_ne by done;
    by apply append_option_other.
Qed.

Lemma add_options_other cs g f :
  f ≠ "options" -> f ≠ "is_approved" -> add_options g cs !! f = g !! f.
Proof.
  intros Ho Ha. revert g.
  induction cs as [|q cs IH]; intros g; [reflexivity|].
  cbn [foldl]. rewrite IH. by apply with_option_other.
Qed.

Lemma with_option_options q g (l : list value) :
  g !! "options" = Some (VList l) ->
  with_option q g !! "options" = Some (VList (l ++ [option_of q])).
Proof.
  intros Hg. unfold with_option, append_option. rewrite Hg.
  destruct (tradable _ _); rewrite ?lookup_insert_ne by done;
    apply lookup_insert_eq.
Qed.

Lemma add_options_options cs g (l : list value) :
  g !! "options" = Some (VList l) ->
  add_options g cs !! "options" = Some (VList (l ++ (option_of <$> cs))).
Proof.
  revert g l. induction cs as [|q cs IH]; intros g l Hg; cbn [foldl].
  - by rewrite fmap_nil, app_nil_r.
  - rewrite (IH _ _ (with_option_options q g l Hg)).
    by rewrite fmap_cons, <- app_assoc.
Qed.

Lemma with_option_is_approved q g :
  with_option q g !! "is_approved"
  = if tradable_question q then Some (VBool true) else g !! "is_approved".
Proof.
  unfold with_option, tradable_question. destruct (tradable _ _).
  - apply lookup_insert_eq.
  - by apply append_option_other.
Qed.

Lemma add_options_is_approved cs g :
  add_options g cs !! "is_approved"
  = if existsb tradable_question cs then Some (VBool true)
    else g !! "is_approved".
Proof.
  revert g. induction cs as [|q cs IH]; intros g; cbn [foldl existsb];
    [reflexivity|].
  rewrite IH, with_option_is_approved.
  destruct (existsb tradable_question cs); [by rewrite orb_true_r|].
  by rewrite orb_false_r.
Qed.

Lemma members_In k (l : list question) q :
  q ∈ members k l <-> q ∈ l /\ groupable q = true /\ group_key q = k.
Proof.
  unfold members. rewrite !list_elem_of_In, filter_In, andb_true_iff.
  rewrite bool_decide_eq_true. tauto.
Qed.

Lemma candidates_of_In (questions : list question) now_ts q :
  q ∈ candidates_of questions now_ts
  <-> q ∈ questions /\ is_upcoming_match_option q now_ts = true.
Proof. unfold candidates_of. by rewrite !list_elem_of_In, filter_In. Qed.

(** A built snapshot, key by key. *)
Lemma build_live_snapshot_members (questions : list question) now_ts
    (require_approved : bool) k :
  build_live_snapshot iso_of_unix questions now_ts require_approved !! k
  = match members k (candidates_of questions now_ts) with
    | [] => None
    | q0 :: cs =>
        if negb require_approved || existsb tradable_question (q0 :: cs)
        then Some (add_options (first_group iso_of_unix q0) (q0 :: cs))
        else None
    end.
Proof.
  unfold build_live_snapshot. fold (candidates_of questions now_ts).
  destruct require_approved; cbn [negb orb].
  - destruct (members k (candidates_of questions now_ts)) as [|q0 cs] eqn:Hm.
    + apply map_lookup_filter_None. left.
      by rewrite group_candidates_lookup, Hm.
    + pose proof (add_options_is_approved (q0 :: cs)
                    (first_group iso_of_unix q0)) as Ha.
      destruct (existsb tradable_question (q0 :: cs)) eqn:He.
      * apply map_lookup_filter_Some. split.
        -- by rewrite group_candidates_lookup, Hm.
        -- cbn [snd]. unfold get. by rewrite Ha.
      * apply map_lookup_filter_None. right. intros g Hg.
        rewrite group_candidates_lookup, Hm in Hg. injection Hg as <-.
        change (Py.truthy_value
                  (get "is_approved"
                     (add_options (first_group iso_of_unix q0) (q0 :: cs)))
                ≠ true).
        unfold get. rewrite Ha. discriminate.
  - rewrite group_candidates_lookup.
    by destruct (members k (candidates_of questions now_ts)).
Qed.

End Groups.

Lemma built_keys_approved
    (iso_of_unix : Z -> string) (questions : list question) (now_ts : Z)
    (k : string) :
  k ∈ dom (build_live_snapshot iso_of_unix questions now_ts true)
  <-> exists q, q ∈ questions
                /\ is_upcoming_match_option q now_ts = true
                /\ groupable q = true
                /\ group_key q = k
                /\ tradable_question q = true.
Proof.
  rewrite elem_of_dom, build_live_snapshot_members. cbn [negb orb].
  destruct (members k (candidates_of questions now_ts)) as [|q0 cs] eqn:Hm.
  - split; [by intros [? ?]|]. intros (q & Hq & Hup & Hg & Hk & _).
    assert (Hin : q ∈ members k (candidates_of questions now_ts)).
    { apply members_In. rewrite candidates_of_In. tauto. }
    rewrite Hm in Hin. by apply elem_of_nil in Hin.
  - destruct (existsb tradable_question (q0 :: cs)) eqn:He.
    + split; [|eauto]. intros _.
      apply existsb_exists in He as (q & Hin & Ht).
      rewrite <- Hm in Hin.
      apply list_elem_of_In, members_In in Hin as (Hin & Hg & Hk).
      apply candidates_of_In in Hin as [Hin Hup]. eauto 7.
    + split; [by intros [? ?]|]. intros (q & Hq & Hup & Hg & Hk & Ht).
      exfalso.
      assert (Hin : q ∈ members k (candidates_of questions now_ts)).
      { apply members_In. rewrite candidates_of_In. tauto. }
      rewrite Hm in Hin.
      assert (existsb tradable_question (q0 :: cs) = true) as Hex.
      { apply existsb_exists. exists q.
        split; [by apply list_elem_of_In|exact Ht]. }
      congruence.
Qed.

(** X3: the keys of a built snapshot.  Without the approval filter a key is
    present exactly when some question passes the filter, has a parent
    header and a parent identifier, and its stripped parent header is the
    key; with the approval filter one of those questions must moreover be
    tradable. *)
Theorem snapshot_keys
    (iso_of_unix : Z -> string) (questions : list question) (now_ts : Z)
    (k : string) :
  (k ∈ dom (build_live_snapshot iso_of_unix questions now_ts false)
   <-> exists q, q ∈ questions
                 /\ is_upcoming_match_option q now_ts = true
                 /\ groupable q = true
                 /\ group_key q = k)
  /\ (k ∈ dom (build_live_snapshot iso_of_unix questions now_ts true)
      <-> exists q, q ∈ questions
                    /\ is_upcoming_match_option q now_ts = true
                    /\ groupable q = true
                    /\ group_key q = k
                    /\ tradable_question q = true).
Proof.
  split; [|apply built_keys_approved].
  rewrite elem_of_dom, build_live_snapshot_members. cbn [negb orb].
  destruct (members k (candidates_of questions now_ts)) as [|q0 cs] eqn:Hm.
  - split; [by intros [? ?]|]. intros (q & Hq & Hup & Hg & Hk).
    assert (Hin : q ∈ members k (candidates_of questions now_ts)).
    { apply members_In. rewrite candidates_of_In. tauto. }
    rewrite Hm in Hin. by apply elem_of_nil in Hin.
  - split; [|eauto]. intros _.
    assert (Hin : q0 ∈ members k (candidates_of questions now_ts)).
    { rewrite Hm. left. }
    apply members_In in Hin as (Hin & Hg & Hk).
    apply candidates_of_In in Hin as [Hin Hup]. eauto 6.
Qed.

Section GroupContents.

Variable iso_of_unix : Z -> string.

Lemma built_group_members (questions : list question) now_ts
    (require_approved : bool) k (g : group) :
  build_live_snapshot iso_of_unix questions now_ts require_approved !! k
  = Some g ->
  exists q0 cs,
    members k (candidates_of questions now_ts) = q0 :: cs
    /\ g = foldl (fun g q => with_option q g) (first_group iso_of_unix q0)
             (q0 :: cs)
    /\ (require_approved = true ->
        existsb tradable_question (q0 :: cs) = true).
Proof.
  rewrite build_live_snapshot_members.
  destruct (members k (candidates_of questions now_ts)) as [|q0 cs];
    [discriminate|].
  destruct require_approved; cbn [negb orb].
  - destruct (existsb tradable_question (q0 :: cs)) eqn:He; [|discriminate].
    intros [= <-]. eauto.
  - intros [= <-]. exists q0, cs. repeat split. discriminate.
Qed.

End GroupContents.

(** X4: the options of a built group are the option dictionaries of the
    questions filed under its key, one per question and in input order;
    nothing is merged or dropped, so two questions with the same
    [questionId] give two options. *)
Theorem group_options_in_input_order
    (iso_of_unix : Z -> string) (questions : list question) (now_ts : Z)
    (require_approved : bool) (k : string) (g : group) :
  build_live_snapshot iso_of_unix questions now_ts require_approved !! k
  = Some g ->
  g !! "options"
  = Some (VList (option_of <$> members k (candidates_of questions now_ts))).
Proof.
  intros (q0 & cs & -> & -> & _)%built_group_members.
  by rewrite (add_options_options _ _ []).
Qed.

Lemma group_options_in_input_order_witness :
  with_option sample_question
    (with_option sample_question (first_group sample_iso sample_question))
  !! "options"
  = Some (VList [option_of sample_question; option_of sample_question]).
Proof.
  apply (group_options_in_input_order sample_iso
           [sample_question; sample_question] 100 true sample_key).
  vm_compute. reflexivity.
Defined.

(** X5: the header, the slug and the identifier of a built group are those
    of the first question filed under its key, the key is that question's
    stripped parent header, and the group has exactly the seven fields the
    normaliser creates. *)
Theorem group_fields_from_first_question
    (iso_of_unix : Z -> string) (questions : list question) (now_ts : Z)
    (require_approved : bool) (k : string) (g : group) :
  build_live_snapshot iso_of_unix questions now_ts require_approved !! k
  = Some g ->
  exists q0 cs,
    members k (candidates_of questions now_ts) = q0 :: cs
    /\ k = Text.strip (Py.or_empty (parentQuestionHeader (bm_of q0)))
    /\ g !! "match_header"
       = Some (VStr (Py.or_empty (parentQuestionHeader (bm_of q0))))
    /\ g !! "slug"
       = Some (VStr (slugify (Py.or_empty (parentQuestionHeader (bm_of q0)))))
    /\ g !! "multi_question_id"
       = Some (VStr (Py.str (parentQuestionId (bm_of q0))))
    /\ (forall f, is_Some (g !! f) <-> f ∈ group_fields).
Proof.
  intros (q0 & cs & Hm & -> & _)%built_group_members.
  exists q0, cs. split; [exact Hm|].
  assert (Hin : q0 ∈ members k (candidates_of questions now_ts)).
  { rewrite Hm. left. }
  apply members_In in Hin as (_ & _ & Hk).
  split; [by rewrite <- Hk|].
  rewrite !add_options_other by done.
  split; [reflexivity|]. split; [reflexivity|]. split; [reflexivity|].
  intros f.
  assert (Hyes : forall x (v : option value),
             In x group_fields -> is_Some v -> is_Some v <-> x ∈ group_fields).
  { intros x v Hx Hv. split; [intros _; by apply list_elem_of_In|done]. }
  destruct (decide (f = "options")) as [->|Ho].
  { apply Hyes; [cbn; tauto|].
    rewrite (add_options_options _ _ []) by reflexivity. eauto. }
  destruct (decide (f = "is_approved")) as [->|Ha].
  { apply Hyes; [cbn; tauto|]. rewrite add_options_is_approved.
    destruct (existsb _ _); [eauto|]. eexists. reflexivity. }
  rewrite add_options_other by done.
  unfold first_group, new_group.
  destruct (decide (f = "match_header")) as [->|?];
    [apply Hyes; [cbn; tauto|eexists; reflexivity]|].
  destruct (decide (f = "slug")) as [->|?];
    [apply Hyes; [cbn; tauto|eexists; reflexivity]|].
  destruct (decide (f = "multi_question_id")) as [->|?];
    [apply Hyes; [cbn; tauto|eexists; reflexivity]|].
  destruct (decide (f = "questionEndTime")) as [->|?];
    [apply Hyes; [cbn; tauto|eexists; reflexivity]|].
  destruct (decide (f = "questionEndTime_iso")) as [->|?];
    [apply Hyes; [cbn; tauto|eexists; reflexivity]|].
  rewrite !lookup_insert_ne, lookup_empty by done.
  split; [by intros [? ?]|].
  intros Hf%list_elem_of_In. cbn in Hf. intuition congruence.
Qed.

Lemma group_fields_from_first_question_witness :
  exists q0 cs,
    members sample_key (candidates_of [sample_question; sample_sibling] 100)
    = q0 :: cs
    /\ sample_key = Text.strip (Py.or_empty (parentQuestionHeader (bm_of q0)))
    /\ with_option sample_sibling
         (with_option sample_question
            (first_group sample_iso sample_question)) !! "match_header"
       = Some (VStr (Py.or_empty (parentQuestionHeader (bm_of q0))))
    /\ with_option sample_sibling
         (with_option sample_question
            (first_group sample_iso sample_question)) !! "slug"
       = Some (VStr (slugify (Py.or_empty (parentQuestionHeader (bm_of q0)))))
    /\ with_option sample_sibling
         (with_option sample_question
            (first_group sample_iso sample_question)) !! "multi_question_id"
       = Some (VStr (Py.str (parentQuestionId (bm_of q0))))
    /\ (forall f,
          is_Some
            (with_option sample_sibling
               (with_option sample_question
                  (first_group sample_iso sample_question)) !! f)
          <-> f ∈ group_fields).
Proof.
  apply (group_fields_from_first_question sample_iso
           [sample_question; sample_sibling] 100 true sample_key).
  vm_compute. reflexivity.
Defined.

(** X6: the approval flag of a built group tells whether one of the
    questions filed under its key is tradable; in a snapshot built with the
    approval filter every group has [is_approved] true. *)
Theorem group_approval_flag
    (iso_of_unix : Z -> string) (questions : list question) (now_ts : Z)
    (require_approved : bool) (k : string) (g : group) :
  build_live_snapshot iso_of_unix questions now_ts require_approved !! k
  = Some g ->
  g !! "is_approved"
  = Some (VBool (existsb tradable_question
                   (members k (candidates_of questions now_ts))))
  /\ (require_approved = true -> g !! "is_approved" = Some (VBool true)).
Proof.
  intros (q0 & cs & -> & -> & Hra)%built_group_members.
  rewrite add_options_is_approved.
  destruct (existsb tradable_question (q0 :: cs)).
  - split; reflexivity.
  - split; [reflexivity|]. intros H. discriminate (Hra H).
Qed.

Lemma group_approval_flag_witness :
  with_option sample_sibling
    (with_option sample_question (first_group sample_iso sample_question))
  !! "is_approved"
  = Some (VBool (existsb tradable_question
                   (members sample_key
                      (candidates_of [sample_question; sample_sibling] 100))))
  /\ (true = true ->
      with_option sample_sibling
        (with_option sample_question (first_group sample_iso sample_question))
      !! "is_approved" = Some (VBool true)).
Proof.
  apply (group_approval_flag sample_iso [sample_question; sample_sibling]
           100 true sample_key).
  vm_compute. reflexivity.
Defined.

(** X7: the end time of a built group is the one of the first question
    filed under its key, an integer strictly after the current time; later
    questions of the same key do not change it, and the display form is
    derived from that integer. *)
Theorem group_end_time_is_upcoming
    (iso_of_unix : Z -> string) (questions : list question) (now_ts : Z)
    (require_approved : bool) (k : string) (g : group) :
  build_live_snapshot iso_of_unix questions now_ts require_approved !! k
  = Some g ->
  exists q0 cs n,
    members k (candidates_of questions now_ts) = q0 :: cs
    /\ Py.int (Py.or_zero (questionEndTime (bm_of q0))) = Some n
    /\ now_ts < n
    /\ g !! "questionEndTime" = Some (VInt n)
    /\ g !! "questionEndTime_iso"
       = Some (VStr (if n =? 0 then "" else iso_of_unix n)).
Proof.
  intros (q0 & cs & Hm & -> & _)%built_group_members.
  assert (Hin : q0 ∈ members k (candidates_of questions now_ts)).
  { rewrite Hm. left. }
  apply members_In in Hin as (Hin & _ & _).
  apply candidates_of_In in Hin as [_ Hup].
  apply is_upcoming_match_option_spec in Hup as (_ & _ & _ & n & Hn & Hgt).
  exists q0, cs, n. split; [exact Hm|]. split; [exact Hn|].
  split; [lia|].
  rewrite !add_options_other by done.
  unfold first_group, new_group. rewrite Hn. split; reflexivity.
Qed.

Lemma group_end_time_is_upcoming_witness :
  exists q0 cs n,
    members sample_key (candidates_of [sample_question; sample_sibling] 100)
    = q0 :: cs
    /\ Py.int (Py.or_zero (questionEndTime (bm_of q0))) = Some n
    /\ 100 < n
    /\ with_option sample_sibling
         (with_option sample_question
            (first_group sample_iso sample_question)) !! "questionEndTime"
       = Some (VInt n)
    /\ with_option sample_sibling
         (with_option sample_question
            (first_group sample_iso sample_question)) !! "questionEndTime_iso"
       = Some (VStr (if n =? 0 then "" else sample_iso n)).
Proof.
  apply (group_end_time_is_upcoming sample_iso
           [sample_question; sample_sibling] 100 true sample_key).
  vm_compute. reflexivity.
Defined.

(** ** What a reconciliation persists and announces *)

Section Cycle.

Implicit Types (saved current : snapshot) (k : string) (g m : group).

Lemma key_le_total : Total key_le.
Proof. intros a b. apply String.leb_total. Qed.

Lemma sorted_difference_sorted (a b : gset string) :
  Sorted key_le (sorted_difference a b).
Proof.
  unfold sorted_difference.
  apply (@Sorted_merge_sort _ key_le _ key_le_total).
Qed.

Lemma sorted_difference_dom_empty (b : gset string) :
  sorted_difference (dom (∅ : snapshot)) b = [].
Proof.
  unfold sorted_difference.
  replace (dom (∅ : snapshot) ∖ b) with (∅ : gset string).
  - by rewrite elements_empty.
  - rewrite dom_empty_L. symmetry. apply subseteq_empty_difference_L.
    apply empty_subseteq.
Qed.

Lemma dom_merged saved current now :
  dom (merged saved current now) = dom current.
Proof.
  apply set_eq. intros k. rewrite !elem_of_dom, merged_lookup.
  destruct (current !! k) as [g|]; [|done].
  destruct (saved !! k); split; eauto.
Qed.

Lemma alerts_for_keys (l : list string) (snap : snapshot) :
  (forall k, k ∈ l -> is_Some (snap !! k)) ->
  (alerts_for l snap).*1 = l.
Proof.
  unfold alerts_for. induction l as [|k l IH]; intros Hl; [reflexivity|].
  cbn [omap list_omap].
  destruct (Hl k (list_elem_of_here _ _)) as [m Hm].
  rewrite Hm. cbn. f_equal. apply IH. intros j Hj. apply Hl. by right.
Qed.

Lemma alerts_for_lookup (l : list string) (snap : snapshot) k m :
  (k, m) ∈ alerts_for l snap -> k ∈ l /\ snap !! k = Some m.
Proof.
  unfold alerts_for. rewrite list_elem_of_omap.
  intros (j & Hj & Hkm). destruct (snap !! j) as [g|] eqn:Hg; [|discriminate].
  injection Hkm as <- <-. eauto.
Qed.

End Cycle.

(** X8: the snapshot a cycle persists has exactly the keys of the fresh
    snapshot: groups of removed keys are dropped, nothing else is added or
    lost. *)
Theorem persisted_keys_are_fresh_keys
    (saved current : snapshot) (now : datetime) :
  exists snap,
    run_persisted (run_once_reconcile saved current now) = Some snap
    /\ poll_persisted (watcher_poll saved current now) = snap
    /\ dom snap = dom current
    /\ (forall k, k ∈ run_removed_keys (run_once_reconcile saved current now)
                  -> snap !! k = None).
Proof.
  exists (merged saved current now).
  split; [reflexivity|]. split; [reflexivity|]. split; [apply dom_merged|].
  intros k [_ Hk]%elem_of_sorted_difference.
  apply not_elem_of_dom. by rewrite dom_merged.
Qed.

(** X9: reconciliation changes nothing but [first_detected_at]: every other
    field of a persisted group is the field of the freshly built group. *)
Theorem reconciliation_frame
    (saved current : snapshot) (now : datetime) (k : string) (g : group) :
  current !! k = Some g ->
  exists snap m,
    run_persisted (run_once_reconcile saved current now) = Some snap
    /\ poll_persisted (watcher_poll saved current now) = snap
    /\ snap !! k = Some m
    /\ (forall f, f ≠ "first_detected_at" -> m !! f = g !! f).
Proof.
  intros Hg. exists (merged saved current now).
  rewrite merged_lookup, Hg.
  destruct (saved !! k) as [old|] eqn:Hs.
  - exists (carried saved k g). repeat split.
    intros f Hf. unfold carried. rewrite Hs.
    destruct (old !! "first_detected_at"); [|reflexivity].
    by rewrite lookup_insert_ne.
  - eexists. repeat split. intros f Hf. by rewrite lookup_insert_ne.
Qed.

Lemma reconciliation_frame_witness :
  exists snap m,
    run_persisted
      (run_once_reconcile
         {[sample_key := {["first_detected_at" := VStr "2025-01-01 10:00:00"]}]}
         {[sample_key := {["slug" := VStr "alpha-vs-beta-match-result"]}]}
         sample_now) = Some snap
    /\ poll_persisted
         (watcher_poll
            {[sample_key :=
                {["first_detected_at" := VStr "2025-01-01 10:00:00"]}]}
            {[sample_key := {["slug" := VStr "alpha-vs-beta-match-result"]}]}
            sample_now) = snap
    /\ snap !! sample_key = Some m
    /\ (forall f, f ≠ "first_detected_at" ->
          m !! f
          = ({["slug" := VStr "alpha-vs-beta-match-result"]} : group) !! f).
Proof.
  apply (reconciliation_frame
           {[sample_key := {["first_detected_at" := VStr "2025-01-01 10:00:00"]}]}
           {[sample_key := {["slug" := VStr "alpha-vs-beta-match-result"]}]}
           sample_now sample_key).
  reflexivity.
Defined.

(** X10: the new keys and the removed keys of a run are in ascending order
    without repetition, they are exactly the keys only the fresh snapshot
    has and the keys only the old snapshot has, and the alerts go out one
    per new key in that order, each rendered from the group as persisted,
    stamped with the time of the run. *)
Theorem keys_and_alerts_in_ascending_order
    (saved current : snapshot) (now : datetime) :
  let r := run_once_reconcile saved current now in
  let p := watcher_poll saved current now in
  Sorted key_le (run_new_keys r)
  /\ NoDup (run_new_keys r)
  /\ (forall k, k ∈ run_new_keys r <-> k ∈ dom current /\ k ∉ dom saved)
  /\ Sorted key_le (run_removed_keys r)
  /\ NoDup (run_removed_keys r)
  /\ (forall k, k ∈ run_removed_keys r <-> k ∈ dom saved /\ k ∉ dom current)
  /\ poll_new_keys p = run_new_keys r
  /\ (run_alerts r).*1 = run_new_keys r
  /\ poll_alerts p = run_alerts r
  /\ (forall k m, (k, m) ∈ run_alerts r ->
        run_persisted r = Some (poll_persisted p)
        /\ poll_persisted p !! k = Some m
        /\ m !! "first_detected_at" = Some (VStr (now_iso now))).
Proof.
  intros r p.
  split; [apply sorted_difference_sorted|].
  split; [apply NoDup_sorted_difference|].
  split; [intros k; apply elem_of_sorted_difference|].
  split; [apply sorted_difference_sorted|].
  split; [apply NoDup_sorted_difference|].
  split; [intros k; apply elem_of_sorted_difference|].
  split; [reflexivity|].
  split.
  { unfold r, run_once_reconcile. cbn [run_alerts run_new_keys].
    apply alerts_for_keys. intros k [Hk _]%elem_of_sorted_difference.
    apply elem_of_dom. fold (merged saved current now).
    by rewrite dom_merged. }
  split; [reflexivity|].
  intros k m Hkm. split; [reflexivity|].
  unfold r, run_once_reconcile in Hkm. cbn [run_alerts] in Hkm.
  fold (merged saved current now) in Hkm.
  apply alerts_for_lookup in Hkm as [Hk Hm].
  split; [exact Hm|].
  apply elem_of_sorted_difference in Hk as [[g Hg]%elem_of_dom Hs%not_elem_of_dom].
  rewrite merged_lookup, Hg, Hs in Hm. injection Hm as <-.
  apply lookup_insert_eq.
Qed.

(** X11: when every group of the old snapshot has a [first_detected_at],
    so has every group of the persisted snapshot. *)
Theorem timestamps_stay_complete
    (saved current : snapshot) (now : datetime) :
  (forall k old, saved !! k = Some old ->
                 is_Some (old !! "first_detected_at")) ->
  exists snap,
    run_persisted (run_once_reconcile saved current now) = Some snap
    /\ poll_saved (watcher_poll saved current now) = snap
    /\ (forall k m, snap !! k = Some m ->
                    is_Some (m !! "first_detected_at")).
Proof.
  intros Hsaved. exists (merged saved current now).
  split; [reflexivity|]. split; [reflexivity|].
  intros k m. rewrite merged_lookup.
  destruct (current !! k) as [g|]; [|discriminate].
  destruct (saved !! k) as [old|] eqn:Hs; intros [= <-].
  - unfold carried. rewrite Hs. destruct (Hsaved k old Hs) as [t Ht].
    rewrite Ht, lookup_insert_eq. eauto.
  - rewrite lookup_insert_eq. eauto.
Qed.

Lemma timestamps_stay_complete_witness :
  exists snap,
    run_persisted
      (run_once_reconcile
         {[sample_key := {["first_detected_at" := VStr "2025-01-01 10:00:00"]}]}
         {[sample_key := {["slug" := VStr "alpha-vs-beta-match-result"]}]}
         sample_now) = Some snap
    /\ poll_saved
         (watcher_poll
            {[sample_key :=
                {["first_detected_at" := VStr "2025-01-01 10:00:00"]}]}
            {[sample_key := {["slug" := VStr "alpha-vs-beta-match-result"]}]}
            sample_now) = snap
    /\ (forall k m, snap !! k = Some m ->
                    is_Some (m !! "first_detected_at")).
Proof.
  apply (timestamps_stay_complete
           {[sample_key := {["first_detected_at" := VStr "2025-01-01 10:00:00"]}]}
           {[sample_key := {["slug" := VStr "alpha-vs-beta-match-result"]}]}
           sample_now).
  intros k old [<- <-]%lookup_singleton_Some.
  eexists. reflexivity.
Defined.


(** ** What a validation pass keeps, drops and reports *)

Section ValidationPass.

Variable json_dumps_sorted : value -> string.

Implicit Types (saved live : snapshot) (k : string).

Lemma filter_none {A} (P : A -> Prop) `{!forall x, Decision (P x)}
    (l : list A) :
  (forall x, x ∈ l -> ~ P x) -> filter P l = [].
Proof.
  induction l as [|x l IH]; intros Hl; [reflexivity|].
  rewrite filter_cons, decide_False by (apply Hl; left).
  apply IH. intros y Hy. apply Hl. by right.
Qed.

Lemma validate_against_removed_keys saved live :
  removed_key <$> val_removal_log (validate_against json_dumps_sorted saved live)
  = filter (fun k => live !! k = None) (elements (dom saved)).
Proof.
  rewrite validate_against_removal_log, <- list_fmap_compose.
  apply list_fmap_id.
Qed.

Lemma validate_against_touched saved live :
  let r := validate_against json_dumps_sorted saved live in
  val_persisted r
  = (if negb (Text.is_nil (val_removal_log r))
        || negb (Text.is_nil (val_updated r))
     then Some (val_returned r) else None)
  /\ (is_Some (val_summary r) <-> is_Some (val_persisted r)).
Proof.
  unfold validate_against.
  cbn [val_persisted val_removal_log val_updated val_returned val_summary].
  destruct (vs_removed _) as [|x xs], (vs_updated _) as [|u us]; cbn;
    (split; [reflexivity|]); split; intros [? H]; try discriminate H; eauto.
Qed.

(** A pass that finds every saved key in the fresh snapshot, unchanged. *)
Lemma validate_against_quiet saved live :
  (forall k si, saved !! k = Some si ->
     exists li, live !! k = Some li
                /\ changed json_dumps_sorted si li = false) ->
  let r := validate_against json_dumps_sorted saved live in
  val_returned r = saved
  /\ val_removal_log r = []
  /\ val_updated r = []
  /\ val_persisted r = None
  /\ val_summary r = None.
Proof.
  intros Hq r.
  assert (Hlog : val_removal_log r = []).
  { unfold r. rewrite validate_against_removal_log, filter_none; [done|].
    intros k [si Hk]%elem_of_elements%elem_of_dom Hn.
    destruct (Hq k si Hk) as (li & Hl & _). congruence. }
  assert (Hupd : val_updated r = []).
  { unfold r. rewrite validate_against_updated. apply filter_none.
    intros k [si Hk]%elem_of_elements%elem_of_dom.
    destruct (Hq k si Hk) as (li & Hl & Hc).
    unfold key_changed. rewrite Hl, Hk. cbn. congruence. }
  destruct (validate_against_touched saved live) as [Hp Hs].
  fold r in Hp, Hs. rewrite Hlog, Hupd in Hp.
  cbn [Text.is_nil negb orb] in Hp.
  split; [|split; [exact Hlog|split; [exact Hupd|split; [exact Hp|]]]].
  - apply map_eq. intros k. unfold r. rewrite validate_against_returned.
    destruct (saved !! k) as [si|] eqn:Hk; [|reflexivity].
    destruct (Hq k si Hk) as (li & Hl & Hc).
    rewrite Hl. cbn. by rewrite refresh_unchanged.
  - destruct (val_summary r) eqn:Hsum; [|reflexivity].
    destruct Hs as [Hs _]. rewrite Hp in Hs.
    destruct Hs as [? Hs]; [eauto|discriminate].
Qed.

End ValidationPass.

(** X13: a validation pass keeps exactly the saved keys that the fresh
    snapshot still has and never adds a key; the removal log names each
    saved key missing from the fresh snapshot once and no other key; only
    kept keys are recorded as updated, each at most once; and the snapshot
    is persisted, with a summary, exactly when something was removed or
    updated. *)
Theorem validation_keeps_common_keys
    (json_dumps_sorted : value -> string) (saved live : snapshot) :
  let r := validate_against json_dumps_sorted saved live in
  dom (val_returned r) = dom saved ∩ dom live
  /\ (forall k, k ∈ (removed_key <$> val_removal_log r)
                <-> k ∈ dom saved /\ k ∉ dom live)
  /\ NoDup (removed_key <$> val_removal_log r)
  /\ (forall k, k ∈ val_updated r -> k ∈ dom saved /\ k ∈ dom live)
  /\ NoDup (val_updated r)
  /\ val_persisted r
     = (if negb (Text.is_nil (val_removal_log r))
           || negb (Text.is_nil (val_updated r))
        then Some (val_returned r) else None)
  /\ (is_Some (val_summary r) <-> is_Some (val_persisted r)).
Proof.
  intros r. split.
  { apply set_eq. intros k. unfold r.
    rewrite elem_of_intersection, !elem_of_dom, validate_against_returned.
    unfold validated_entry.
    destruct (saved !! k) as [si|], (live !! k) as [li|];
      (split; [intros [x Hx]; try discriminate Hx; eauto
              |intros [[x Hx] [y Hy]]; try discriminate; eauto]). }
  split.
  { intros k. unfold r. rewrite validate_against_removed_keys.
    rewrite list_elem_of_filter, elem_of_elements, not_elem_of_dom. tauto. }
  split.
  { unfold r. rewrite validate_against_removed_keys.
    apply NoDup_filter, NoDup_elements. }
  split.
  { intros k. unfold r. rewrite validate_against_updated.
    rewrite list_elem_of_filter, elem_of_elements. intros [Hc Hk].
    split; [exact Hk|]. unfold key_changed in Hc.
    destruct (live !! k) eqn:Hl; [|discriminate]. apply elem_of_dom. eauto. }
  split.
  { unfold r. rewrite validate_against_updated.
    apply NoDup_filter, NoDup_elements. }
  apply validate_against_touched.
Qed.

(** X14: a validation pass that finds every saved key in the fresh snapshot
    with the same end time, options and approval is silent: it returns the
    saved snapshot as it is, writes no removal entry, records no update,
    persists nothing and sends no summary. *)
Theorem validation_without_drift_is_silent
    (json_dumps_sorted : value -> string) (saved live : snapshot) :
  (forall k si, saved !! k = Some si ->
     exists li, live !! k = Some li
                /\ end_time_differs si li = false
                /\ options_differ json_dumps_sorted si li = false
                /\ approval_differs si li = false) ->
  let r := validate_against json_dumps_sorted saved live in
  val_returned r = saved
  /\ val_removal_log r = []
  /\ val_updated r = []
  /\ val_persisted r = None
  /\ val_summary r = None.
Proof.
  intros Hq. apply validate_against_quiet.
  intros k si Hk. destruct (Hq k si Hk) as (li & Hl & He & Ho & Ha).
  exists li. split; [exact Hl|]. unfold changed. by rewrite He, Ho, Ha.
Qed.

Lemma validation_without_drift_is_silent_witness :
  let saved : snapshot :=
    {["X" := <["questionEndTime" := VInt 100]>
             (<["first_detected_at" := VStr "2025-01-01 10:00:00"]>
             {["is_approved" := VInt 1]})]} in
  let live : snapshot :=
    {["X" := <["questionEndTime" := VInt 100]>
             {["is_approved" := VBool true]}]} in
  let r := validate_against (fun _ => "[]") saved live in
  val_returned r = saved
  /\ val_removal_log r = []
  /\ val_updated r = []
  /\ val_persisted r = None
  /\ val_summary r = None.
Proof.
  intros saved live.
  apply (validation_without_drift_is_silent (fun _ => "[]") saved live).
  intros k si [<- <-]%lookup_singleton_Some.
  eexists. split; [reflexivity|]. repeat split; reflexivity.
Defined.

Section Settled.

Variable iso_of_unix : Z -> string.
Variable json_dumps_sorted : value -> string.

Implicit Types (si li g : group) (k : string).

Lemma eqb_atom_refl (a : scalar) : Py.eqb (VAtom a) (VAtom a) = true.
Proof.
  destruct a as [|b|z|s]; cbn.
  - reflexivity.
  - by destruct b.
  - apply Z.eqb_refl.
  - apply String.eqb_refl.
Qed.

(** The two tracked fields of a built group that [!=] compares are
    scalars. *)
Lemma built_group_tracked (questions : list question) now_ts
    (require_approved : bool) k g :
  build_live_snapshot iso_of_unix questions now_ts require_approved !! k
  = Some g ->
  exists a b,
    get "questionEndTime" g = VAtom a /\ get "is_approved" g = VAtom b.
Proof.
  intros (q0 & cs & _ & -> & _)%built_group_members.
  unfold get. rewrite add_options_other by done.
  rewrite add_options_is_approved.
  unfold first_group, new_group.
  exists (match Py.int (Py.or_zero (questionEndTime (bm_of q0))) with
          | Some n => SInt n
          | None => SNone
          end),
    (SBool (existsb tradable_question (q0 :: cs))).
  split.
  - rewrite lookup_insert_ne, lookup_insert_ne, lookup_insert_ne,
      lookup_insert_ne, lookup_insert_eq by done.
    by destruct (Py.int _).
  - by destruct (existsb _ _).
Qed.

Lemma changed_same_tracked si li (a b : scalar) :
  get "questionEndTime" li = VAtom a ->
  get "is_approved" li = VAtom b ->
  get "questionEndTime" si = get "questionEndTime" li ->
  get_or_list "options" si = get_or_list "options" li ->
  get "is_approved" si = get "is_approved" li ->
  changed json_dumps_sorted si li = false.
Proof.
  intros Ha Hb He Ho Hp.
  unfold changed, end_time_differs, options_differ, approval_differs.
  rewrite He, Ho, Hp, Ha, Hb, !eqb_atom_refl, String.eqb_refl. reflexivity.
Qed.

Lemma get_refresh_end_time si li :
  get "questionEndTime" (refresh json_dumps_sorted si li)
  = if end_time_differs si li then get "questionEndTime" li
    else get "questionEndTime" si.
Proof.
  unfold get at 1. rewrite refresh_lookup, decide_True by done.
  by destruct (end_time_differs si li).
Qed.

Lemma get_refresh_options si li :
  get_or_list "options" (refresh json_dumps_sorted si li)
  = if options_differ json_dumps_sorted si li then get_or_list "options" li
    else get_or_list "options" si.
Proof.
  unfold get_or_list at 1. rewrite refresh_lookup.
  rewrite decide_False, decide_False, decide_True by done.
  by destruct (options_differ json_dumps_sorted si li).
Qed.

Lemma get_refresh_is_approved si li :
  get "is_approved" (refresh json_dumps_sorted si li)
  = if approval_differs si li then get "is_approved" li
    else get "is_approved" si.
Proof.
  unfold get at 1. rewrite refresh_lookup.
  rewrite decide_False, decide_False, decide_False, decide_True by done.
  by destruct (approval_differs si li).
Qed.

Lemma refresh_settled si li (a b : scalar) :
  get "questionEndTime" li = VAtom a ->
  get "is_approved" li = VAtom b ->
  changed json_dumps_sorted (refresh json_dumps_sorted si li) li = false.
Proof.
  intros Ha Hb.
  assert (He : end_time_differs (refresh json_dumps_sorted si li) li = false).
  { unfold end_time_differs at 1. rewrite get_refresh_end_time.
    destruct (end_time_differs si li) eqn:Hd; [|exact Hd].
    by rewrite Ha, eqb_atom_refl. }
  assert (Ho : options_differ json_dumps_sorted
                 (refresh json_dumps_sorted si li) li = false).
  { unfold options_differ at 1. rewrite get_refresh_options.
    destruct (options_differ json_dumps_sorted si li) eqn:Hd; [|exact Hd].
    by rewrite String.eqb_refl. }
  assert (Hp : approval_differs (refresh json_dumps_sorted si li) li = false).
  { unfold approval_differs at 1. rewrite get_refresh_is_approved.
    destruct (approval_differs si li) eqn:Hd; [|exact Hd].
    by rewrite Hb, eqb_atom_refl. }
  unfold changed. by rewrite He, Ho, Hp.
Qed.

End Settled.

(** X15: a validation pass right after a poll, over the same market data,
    finds nothing to repair: it returns what the poll left, removes and
    updates nothing, persists nothing and sends no summary. *)
Theorem validation_after_poll_is_silent
    (iso_of_unix : Z -> string) (json_dumps_sorted : value -> string)
    (saved : snapshot) (questions : list question) (now_ts : Z)
    (now : datetime) :
  let current := build_live_snapshot iso_of_unix questions now_ts true in
  let left := poll_saved (watcher_poll saved current now) in
  let r :=
    validate_snapshot iso_of_unix json_dumps_sorted left (Fetched questions)
      now_ts in
  val_returned r = left
  /\ val_removal_log r = []
  /\ val_updated r = []
  /\ val_persisted r = None
  /\ val_summary r = None.
Proof.
  intros current left r. unfold r, validate_snapshot.
  destruct (bool_decide (left = ∅)) eqn:Hempty.
  { apply bool_decide_eq_true in Hempty. by rewrite Hempty. }
  apply validate_against_quiet. fold current.
  intros k si Hk. change left with (merged saved current now) in Hk.
  rewrite merged_lookup in Hk.
  destruct (current !! k) as [g|] eqn:Hg; [|discriminate].
  exists g. split; [reflexivity|].
  destruct (built_group_tracked _ _ _ _ _ _ Hg) as (a & b & Ha & Hb).
  assert (Hframe : forall f, f ≠ "first_detected_at" -> si !! f = g !! f).
  { intros f Hf. destruct (saved !! k) as [old|] eqn:Hs;
      injection Hk as <-.
    - unfold carried. rewrite Hs.
      destruct (old !! "first_detected_at"); [|reflexivity].
      by rewrite lookup_insert_ne.
    - by rewrite lookup_insert_ne. }
  apply (changed_same_tracked _ _ _ a b Ha Hb);
    unfold get, get_or_list; by rewrite Hframe.
Qed.

(** X16: validation is idempotent: a second pass over the same market data
    returns what the first pass returned and removes, updates, persists and
    reports nothing. *)
Theorem validation_is_idempotent
    (iso_of_unix : Z -> string) (json_dumps_sorted : value -> string)
    (saved : snapshot) (questions : list question) (now_ts : Z) :
  let r1 :=
    validate_snapshot iso_of_unix json_dumps_sorted saved (Fetched questions)
      now_ts in
  let r2 :=
    validate_snapshot iso_of_unix json_dumps_sorted (val_returned r1)
      (Fetched questions) now_ts in
  val_returned r2 = val_returned r1
  /\ val_removal_log r2 = []
  /\ val_updated r2 = []
  /\ val_persisted r2 = None
  /\ val_summary r2 = None.
Proof.
  intros r1 r2. unfold r2. set (S := val_returned r1).
  unfold validate_snapshot.
  destruct (bool_decide (S = ∅)) eqn:Hempty.
  { apply bool_decide_eq_true in Hempty. by rewrite Hempty. }
  apply validate_against_quiet.
  intros k m Hk. unfold S, r1, validate_snapshot in Hk.
  destruct (bool_decide (saved = ∅));
    [cbn [val_returned] in Hk; by rewrite lookup_empty in Hk|].
  rewrite validate_against_returned in Hk.
  destruct (saved !! k) as [si|]; [|discriminate].
  unfold validated_entry in Hk.
  destruct (build_live_snapshot iso_of_unix questions now_ts true !! k)
    as [li|] eqn:Hl; [|discriminate].
  injection Hk as <-. exists li. split; [reflexivity|].
  destruct (built_group_tracked _ _ _ _ _ _ Hl) as (a & b & Ha & Hb).
  by apply (refresh_settled _ _ _ a b).
Qed.

(** ** Identifiers, links and time *)

Lemma string_of_int_nonempty (d : Decimal.int) :
  NilZero.string_of_int d <> "".
Proof. destruct d as [[]|[]]; discriminate. Qed.

Lemma string_of_int_zero (z : Z) :
  NilZero.string_of_int (Z.to_int z) = "0" -> z = 0.
Proof.
  destruct z as [|p|p]; [reflexivity| |].
  - cbn. intros H. exfalso.
    pose proof (DecimalPos.Unsigned.to_uint_nonzero p) as Hz.
    pose proof (DecimalPos.Unsigned.to_uint_nonnil p) as Hn.
    destruct (Pos.to_uint p) as [|u|u|u|u|u|u|u|u|u|u]; try discriminate H;
      try contradiction.
    destruct u; try discriminate H. by apply Hz.
  - cbn. discriminate.
Qed.

Lemma str_of_truthy_nonempty (a : scalar) :
  Py.truthy a = true -> Py.str a <> "".
Proof.
  destruct a as [|[]|z|s]; cbn; try discriminate.
  - intros _. apply string_of_int_nonempty.
  - intros H%negb_true_iff Hs. subst s. discriminate.
Qed.

(** X17: an option is tradable exactly when both of its side-market
    identifiers are assigned: neither null, false, the number 0, the empty
    text nor the text "0". *)
Theorem tradable_iff_both_ids_assigned (yes no : scalar) :
  tradable yes no = true <-> assigned_id yes /\ assigned_id no.
Proof.
  assert (Hone : forall x,
             Py.truthy x && negb (String.eqb (Py.str x) "0") = true
             <-> assigned_id x).
  { intros x. rewrite andb_true_iff, negb_true_iff.
    destruct x as [|[]|z|s]; cbn.
    - split; [intros [? _]; discriminate|tauto].
    - split; [tauto|]. intros _. split; reflexivity.
    - split; [intros [? _]; discriminate|discriminate].
    - rewrite negb_true_iff, Z.eqb_neq. split; [tauto|].
      intros Hz. split; [exact Hz|].
      apply String.eqb_neq. intros H0. by apply Hz, string_of_int_zero.
    - rewrite negb_true_iff, !String.eqb_neq. tauto. }
  rewrite <- !Hone. unfold tradable. rewrite !andb_true_iff. tauto.
Qed.

(** X18: a question that passes the filter at some time passes it at every
    earlier time: only the passing of the end time can make an unsettled
    football match-result question drop out. *)
Theorem filter_antitone_in_time (q : question) (now_ts earlier : Z) :
  earlier <= now_ts ->
  is_upcoming_match_option q now_ts = true ->
  is_upcoming_match_option q earlier = true
  /\ looks_like_upcoming_match q earlier = true.
Proof.
  intros Hle. unfold looks_like_upcoming_match.
  rewrite !is_upcoming_match_option_spec.
  intros (Hc & Hh & Hs & n & Hn & Hgt).
  split; (split; [exact Hc|split; [exact Hh|split; [exact Hs|]]];
          exists n; split; [exact Hn|lia]).
Qed.

Lemma filter_antitone_in_time_witness :
  is_upcoming_match_option sample_question 50 = true
  /\ looks_like_upcoming_match sample_question 50 = true.
Proof.
  apply (filter_antitone_in_time sample_question 100 50).
  - lia.
  - reflexivity.
Defined.

(** X19: the link of a built group.  When the slug of its header is empty
    the link is "(URL unavailable)"; otherwise it is the base address, the
    slug of the header, a hyphen, the parent identifier of the first
    question of the group and the referral code.  Reconciliation does not
    change the link. *)
Theorem market_url_of_built_group
    (base_market_url referral_code : string) (py_repr : value -> string)
    (iso_of_unix : Z -> string) (questions : list question) (now_ts : Z)
    (require_approved : bool) (k : string) (g : group) :
  let current :=
    build_live_snapshot iso_of_unix questions now_ts require_approved in
  current !! k = Some g ->
  exists q0 cs,
    members k (candidates_of questions now_ts) = q0 :: cs
    /\ build_market_url base_market_url referral_code py_repr g
       = (if String.eqb
               (slugify (Py.or_empty (parentQuestionHeader (bm_of q0)))) ""
          then "(URL unavailable)"
          else base_market_url ++ "/"
               ++ slugify (Py.or_empty (parentQuestionHeader (bm_of q0)))
               ++ "-" ++ Py.str (parentQuestionId (bm_of q0))
               ++ "?referral=" ++ referral_code)
    /\ (forall saved now m,
          poll_persisted (watcher_poll saved current now) !! k = Some m ->
          run_persisted (run_once_reconcile saved current now)
          = Some (poll_persisted (watcher_poll saved current now))
          /\ build_market_url base_market_url referral_code py_repr m
             = build_market_url base_market_url referral_code py_repr g).
Proof.
  intros current Hg.
  destruct (built_group_members _ _ _ _ _ _ Hg) as (q0 & cs & Hm & Heq & _).
  exists q0, cs. split; [exact Hm|]. split.
  - assert (Hin : q0 ∈ members k (candidates_of questions now_ts)).
    { rewrite Hm. left. }
    apply members_In in Hin as (_ & Hgr & _).
    unfold groupable in Hgr.
    apply negb_true_iff, orb_false_elim in Hgr as [_ Hid].
    apply negb_false_iff in Hid.
    unfold build_market_url, get. rewrite Heq.
    rewrite !add_options_other by done.
    unfold first_group, new_group.
    rewrite lookup_insert_ne, lookup_insert_eq by done.
    rewrite lookup_insert_ne, lookup_insert_ne, lookup_insert_eq by done.
    cbn [Py.truthy_value VStr Py.truthy format_value Py.str].
    destruct (String.eqb_spec (Py.str (parentQuestionId (bm_of q0))) "")
      as [He|_]; [by apply str_of_truthy_nonempty in He|].
    cbn [negb orb]. rewrite orb_false_r.
    by destruct (String.eqb _ "").
  - intros saved now m Hm'. split; [reflexivity|].
    change (merged saved current now !! k = Some m) in Hm'.
    rewrite merged_lookup, Hg in Hm'.
    assert (Hframe : forall f, f ≠ "first_detected_at" -> m !! f = g !! f).
    { intros f Hf. destruct (saved !! k) as [old|] eqn:Hs;
        injection Hm' as <-.
      - unfold carried. rewrite Hs.
        destruct (old !! "first_detected_at"); [|reflexivity].
        by rewrite lookup_insert_ne.
      - by rewrite lookup_insert_ne. }
    unfold build_market_url, get. by rewrite !Hframe.
Qed.

Lemma market_url_of_built_group_witness :
  let current := build_live_snapshot sample_iso [sample_question] 100 true in
  exists q0 cs,
    members sample_key (candidates_of [sample_question] 100) = q0 :: cs
    /\ build_market_url "https://www.fliq.one/#/multi-question" "aD6VfTQkAW"
         (fun _ => "") (with_option sample_question
                          (first_group sample_iso sample_question))
       = (if String.eqb
               (slugify (Py.or_empty (parentQuestionHeader (bm_of q0)))) ""
          then "(URL unavailable)"
          else "https://www.fliq.one/#/multi-question" ++ "/"
               ++ slugify (Py.or_empty (parentQuestionHeader (bm_of q0)))
               ++ "-" ++ Py.str (parentQuestionId (bm_of q0))
               ++ "?referral=" ++ "aD6VfTQkAW")
    /\ (forall saved now m,
          poll_persisted (watcher_poll saved current now) !! sample_key
          = Some m ->
          run_persisted (run_once_reconcile saved current now)
          = Some (poll_persisted (watcher_poll saved current now))
          /\ build_market_url "https://www.fliq.one/#/multi-question"
               "aD6VfTQkAW" (fun _ => "") m
             = build_market_url "https://www.fliq.one/#/multi-question"
                 "aD6VfTQkAW" (fun _ => "")
                 (with_option sample_question
                    (first_group sample_iso sample_question))).
Proof.
  apply (market_url_of_built_group "https://www.fliq.one/#/multi-question"
           "aD6VfTQkAW" (fun _ => "") sample_iso [sample_question] 100 true
           sample_key).
  vm_compute. reflexivity.
Defined.

(** ** The status message *)

Section Status.

Lemma ascii_compare_trans_le (a b c : ascii) :
  Ascii.compare a b <> Gt -> Ascii.compare b c <> Gt ->
  Ascii.compare a c <> Gt
  /\ (Ascii.compare a c = Eq ->
      Ascii.compare a b = Eq /\ Ascii.compare b c = Eq).
Proof.
  unfold Ascii.compare.
  intros Hab Hbc.
  pose proof (proj1 (N.compare_le_iff _ _) Hab) as Hab'.
  pose proof (proj1 (N.compare_le_iff _ _) Hbc) as Hbc'.
  split.
  - apply N.compare_le_iff. lia.
  - intros Hac. apply N.compare_eq_iff in Hac.
    split; apply N.compare_eq_iff; lia.
Qed.

Lemma string_compare_trans_le (a b c : string) :
  String.compare a b <> Gt -> String.compare b c <> Gt ->
  String.compare a c <> Gt.
Proof.
  revert b c. induction a as [|x a IH]; intros [|y b] [|z c]; cbn;
    try congruence.
  intros Hab Hbc.
  destruct (ascii_compare_trans_le x y z) as [Hle Heq].
  - destruct (Ascii.compare x y); congruence.
  - destruct (Ascii.compare y z); congruence.
  - destruct (Ascii.compare x z) eqn:Hxz; try congruence.
    destruct (Heq eq_refl) as [Hxy Hyz]. rewrite Hxy in Hab.
    rewrite Hyz in Hbc. by apply (IH b c).
Qed.

Lemma leb_trans (a b c : string) :
  String.leb a b = true -> String.leb b c = true -> String.leb a c = true.
Proof.
  unfold String.leb. intros Hab Hbc.
  pose proof (string_compare_trans_le a b c) as H.
  destruct (String.compare a b), (String.compare b c),
    (String.compare a c); try reflexivity; try discriminate;
    exfalso; apply H; congruence.
Qed.

Lemma ltb_false_leb (a b : string) :
  String.ltb a b = false -> String.leb b a = true.
Proof.
  unfold String.ltb, String.leb. rewrite (String.compare_antisym b a).
  by destruct (String.compare a b).
Qed.

Lemma ltb_leb (a b : string) :
  String.ltb a b = true -> String.leb a b = true.
Proof.
  unfold String.ltb, String.leb. by destruct (String.compare a b).
Qed.

Context {A : Type}.

Implicit Types (x y : string * A) (l : list (string * A)).

Lemma insert_desc_perm x l : insert_desc x l ≡ₚ x :: l.
Proof.
  induction l as [|y l IH]; cbn; [reflexivity|].
  destruct (String.ltb x.1 y.1); [|reflexivity].
  rewrite IH. apply Permutation_swap.
Qed.

Lemma sort_desc_perm l : sort_desc l ≡ₚ l.
Proof.
  induction l as [|x l IH]; cbn; [reflexivity|].
  fold (sort_desc l). by rewrite insert_desc_perm, IH.
Qed.

Lemma insert_desc_sorted x l :
  Sorted (fun a b => String.leb b.1 a.1 = true) l ->
  Sorted (fun a b => String.leb b.1 a.1 = true) (insert_desc x l).
Proof.
  induction l as [|y l IH]; intros Hl; cbn.
  - repeat constructor.
  - destruct (String.ltb x.1 y.1) eqn:Hxy.
    + apply Sorted_inv in Hl as [Hl Hhd]. constructor; [by apply IH|].
      destruct l as [|z l]; cbn.
      * constructor. by apply ltb_leb.
      * destruct (String.ltb x.1 z.1); constructor.
        -- by apply HdRel_inv in Hhd.
        -- by apply ltb_leb.
    + constructor; [exact Hl|]. constructor. by apply ltb_false_leb.
Qed.

Lemma sort_desc_sorted l :
  Sorted (fun a b => String.leb b.1 a.1 = true) (sort_desc l).
Proof.
  induction l as [|x l IH]; cbn; [constructor|].
  by apply insert_desc_sorted.
Qed.

(** The head of the sorted list is the first item of greatest key. *)
Lemma sort_desc_head l x rest :
  sort_desc l = x :: rest ->
  exists before after,
    l = (before ++ x :: after)%list
    /\ (forall y, y ∈ before -> String.ltb y.1 x.1 = true)
    /\ (forall y, y ∈ after -> String.leb y.1 x.1 = true).
Proof.
  revert x rest. induction l as [|a l IH]; intros x rest; [discriminate|].
  cbn. fold (sort_desc l).
  destruct (sort_desc l) as [|y r] eqn:Hs.
  - intros [= <- <-].
    assert (l = []) as ->.
    { apply Permutation_nil. by rewrite <- (sort_desc_perm l), Hs. }
    exists [], []. repeat split; intros y Hy; by apply elem_of_nil in Hy.
  - destruct (IH y r eq_refl) as (before & after & -> & Hb & Ha).
    cbn. destruct (String.ltb a.1 y.1) eqn:Hay.
    + intros [= <- <-]. exists (a :: before), after.
      split; [reflexivity|]. split; [|exact Ha].
      intros z [->|Hz]%elem_of_cons; [exact Hay|by apply Hb].
    + intros [= <- <-]. exists [], (before ++ y :: after)%list.
      split; [reflexivity|].
      split; [intros z Hz; by apply elem_of_nil in Hz|].
      apply ltb_false_leb in Hay.
      intros z [Hz|[->|Hz]%elem_of_cons]%elem_of_app.
      * apply (leb_trans _ y.1); [by apply ltb_leb, Hb|exact Hay].
      * exact Hay.
      * apply (leb_trans _ y.1); [by apply Ha|exact Hay].
Qed.

End Status.

Section StatusMessage.

Implicit Types (g : group) (kv : string * group)
  (items : list (string * group)).

Lemma text_timestamp_key g :
  text_timestamp g -> detected_key g = Some (default "" (detected_key g)).
Proof.
  unfold detected_key, get. intros [->|[s ->]]; [reflexivity|].
  cbn. by destruct (negb (String.eqb s "")).
Qed.

Lemma keyed_items items :
  (forall kv, kv ∈ items -> text_timestamp kv.2) ->
  mapM (fun kv => (fun s => (s, kv)) <$> detected_key kv.2) items
  = Some ((fun kv => (detection_key kv, kv)) <$> items).
Proof.
  induction items as [|kv items IH]; intros Ht; [reflexivity|].
  cbn [mapM]. rewrite IH by (intros y Hy; apply Ht; by right).
  rewrite (text_timestamp_key kv.2) by (apply Ht; left).
  reflexivity.
Qed.

Lemma sorted_by_detection_text items :
  (forall kv, kv ∈ items -> text_timestamp kv.2) ->
  sorted_by_detection items
  = Some (sort_desc ((fun kv => (detection_key kv, kv)) <$> items)).*2.
Proof.
  intros Ht. unfold sorted_by_detection. by rewrite keyed_items.
Qed.

Lemma keyed_sorted (l : list (string * (string * group))) :
  (forall x, x ∈ l -> x.1 = detection_key x.2) ->
  Sorted (fun a b => String.leb b.1 a.1 = true) l ->
  Sorted (fun a b => String.leb (detection_key b) (detection_key a) = true)
    l.*2.
Proof.
  induction l as [|x l IH]; intros Hk Hs; [constructor|].
  apply Sorted_inv in Hs as [Hs Hhd]. cbn. constructor.
  - apply IH; [|exact Hs]. intros y Hy. apply Hk. by right.
  - destruct l as [|y l]; cbn; constructor.
    apply HdRel_inv in Hhd.
    rewrite <- (Hk x) by left.
    rewrite <- (Hk y) by (right; left). exact Hhd.
Qed.

End StatusMessage.

(** X20: the status message of a non-empty snapshot whose timestamps are
    texts (or absent).  The market named as the latest has the greatest
    [first_detected_at] of the snapshot, a missing one counting as the empty
    text, and is the first such market in the order of the dictionary; the
    message counts all markets and lists at most [max_items] of them, most
    recently detected first. *)
Theorem status_names_latest
    (py_repr : value -> string) (items : list (string * group))
    (max_items : nat) :
  items <> [] ->
  (forall kv, kv ∈ items -> text_timestamp kv.2) ->
  exists h g before after sorted,
    items = (before ++ (h, g) :: after)%list
    /\ (forall kv, kv ∈ before ->
          String.ltb (detection_key kv) (detection_key (h, g)) = true)
    /\ (forall kv, kv ∈ after ->
          String.leb (detection_key kv) (detection_key (h, g)) = true)
    /\ sorted ≡ₚ items
    /\ Sorted (fun a b =>
                 String.leb (detection_key b) (detection_key a) = true)
         sorted
    /\ head sorted = Some (h, g)
    /\ build_status_message py_repr items max_items
       = Some (status_text (length items) h (latest_time_text py_repr g)
                 max_items (take max_items sorted.*1)).
Proof.
  intros Hne Ht.
  set (keyed := (fun kv => (detection_key kv, kv)) <$> items).
  assert (Hkeys : forall x, x ∈ keyed -> x.1 = detection_key x.2).
  { intros x (kv & -> & _)%list_elem_of_fmap. reflexivity. }
  assert (Hsnd : keyed.*2 = items).
  { unfold keyed. rewrite <- list_fmap_compose. apply list_fmap_id. }
  destruct (sort_desc keyed) as [|[s [h g]] rest] eqn:Hsort.
  { exfalso. apply Hne. rewrite <- Hsnd.
    assert (keyed = []) as ->; [|reflexivity].
    apply Permutation_nil. by rewrite <- (sort_desc_perm keyed), Hsort. }
  destruct (sort_desc_head keyed _ _ Hsort)
    as (before & after & Hsplit & Hb & Ha).
  assert (Hs : s = detection_key (h, g)).
  { apply (Hkeys (s, (h, g))). rewrite Hsplit.
    apply elem_of_app. right. left. }
  exists h, g, before.*2, after.*2, (sort_desc keyed).*2.
  split.
  { by rewrite <- Hsnd, Hsplit, fmap_app, fmap_cons. }
  split.
  { intros kv (x & -> & Hx)%list_elem_of_fmap.
    rewrite <- Hs, <- (Hkeys x).
    - by apply Hb.
    - rewrite Hsplit. apply elem_of_app. by left. }
  split.
  { intros kv (x & -> & Hx)%list_elem_of_fmap.
    rewrite <- Hs, <- (Hkeys x).
    - by apply Ha.
    - rewrite Hsplit. apply elem_of_app. right. by right. }
  split.
  { by rewrite (sort_desc_perm keyed), Hsnd. }
  split.
  { apply keyed_sorted; [|apply sort_desc_sorted].
    intros x Hx. apply Hkeys. by rewrite <- (sort_desc_perm keyed). }
  split.
  { by rewrite Hsort. }
  unfold build_status_message.
  destruct items as [|kv items']; [done|]. cbn [Text.is_nil].
  rewrite sorted_by_detection_text by exact Ht.
  fold keyed. rewrite Hsort. reflexivity.
Qed.

Lemma status_names_latest_witness :
  exists h g before after sorted,
    [("A vs B", ({["first_detected_at" := VStr "2025-01-01 10:00:00"]} : group));
     ("C vs D", {["first_detected_at" := VStr "2025-02-01 10:00:00"]});
     ("E vs F", {["first_detected_at" := VStr "2025-02-01 10:00:00"]})]
    = (before ++ (h, g) :: after)%list
    /\ (forall kv, kv ∈ before ->
          String.ltb (detection_key kv) (detection_key (h, g)) = true)
    /\ (forall kv, kv ∈ after ->
          String.leb (detection_key kv) (detection_key (h, g)) = true)
    /\ sorted ≡ₚ
         [("A vs B",
           ({["first_detected_at" := VStr "2025-01-01 10:00:00"]} : group));
          ("C vs D", {["first_detected_at" := VStr "2025-02-01 10:00:00"]});
          ("E vs F", {["first_detected_at" := VStr "2025-02-01 10:00:00"]})]
    /\ Sorted (fun a b =>
                 String.leb (detection_key b) (detection_key a) = true)
         sorted
    /\ head sorted = Some (h, g)
    /\ build_status_message (fun _ => "")
         [("A vs B",
           ({["first_detected_at" := VStr "2025-01-01 10:00:00"]} : group));
          ("C vs D", {["first_detected_at" := VStr "2025-02-01 10:00:00"]});
          ("E vs F", {["first_detected_at" := VStr "2025-02-01 10:00:00"]})]
         10
       = Some (status_text 3 h (latest_time_text (fun _ => "") g) 10
                 (take 10 sorted.*1)).
Proof.
  apply (status_names_latest (fun _ => "")
           [("A vs B",
             ({["first_detected_at" := VStr "2025-01-01 10:00:00"]} : group));
            ("C vs D", {["first_detected_at" := VStr "2025-02-01 10:00:00"]});
            ("E vs F", {["first_detected_at" := VStr "2025-02-01 10:00:00"]})]
           10).
  - discriminate.
  - intros kv Hkv. right.
    apply elem_of_cons in Hkv as [->|Hkv]; [eexists; reflexivity|].
    apply elem_of_cons in Hkv as [->|Hkv]; [eexists; reflexivity|].
    apply elem_of_cons in Hkv as [->|Hkv]; [eexists; reflexivity|].
    by apply elem_of_nil in Hkv.
Defined.

(** X21: timestamps stay texts.  When every [first_detected_at] of the
    saved snapshot is a text (or absent), so is every one of the snapshot a
    cycle persists and of the snapshot a validation pass returns. *)
Theorem timestamps_stay_text
    (iso_of_unix : Z -> string) (json_dumps_sorted : value -> string)
    (saved : snapshot) (questions : list question) (now_ts : Z)
    (require_approved : bool) (now : datetime) :
  (forall k old, saved !! k = Some old -> text_timestamp old) ->
  let current :=
    build_live_snapshot iso_of_unix questions now_ts require_approved in
  (forall snap k m,
      run_persisted (run_once_reconcile saved current now) = Some snap ->
      snap !! k = Some m -> text_timestamp m)
  /\ (forall k m,
        poll_saved (watcher_poll saved current now) !! k = Some m ->
        text_timestamp m)
  /\ (forall fetch k m,
        val_returned
          (validate_snapshot iso_of_unix json_dumps_sorted saved fetch now_ts)
        !! k = Some m ->
        text_timestamp m).
Proof.
  intros Hsaved current.
  assert (Hmerged : forall k m,
             merged saved current now !! k = Some m -> text_timestamp m).
  { intros k m. rewrite merged_lookup.
    destruct (current !! k) as [g|] eqn:Hg; [|discriminate].
    destruct (build_live_snapshot_built _ _ _ _ k g Hg) as [Hfda _].
    destruct (saved !! k) as [old|] eqn:Hs; intros [= <-].
    - unfold carried. rewrite Hs.
      destruct (Hsaved k old Hs) as [Ho|[s Ho]]; rewrite Ho.
      + by left.
      + right. exists s. apply lookup_insert_eq.
    - right. eexists. apply lookup_insert_eq. }
  split; [|split].
  - intros snap k m [= <-]. apply Hmerged.
  - apply Hmerged.
  - intros fetch k m. unfold validate_snapshot.
    destruct (bool_decide (saved = ∅)); cbn [val_returned];
      [by rewrite lookup_empty|].
    destruct fetch as [e|qs]; cbn [val_returned]; [apply Hsaved|].
    rewrite validate_against_returned.
    destruct (saved !! k) as [si|] eqn:Hs; [|discriminate].
    unfold validated_entry.
    destruct (build_live_snapshot iso_of_unix qs now_ts true !! k) as [li|];
      [|discriminate].
    intros [= <-]. unfold text_timestamp.
    rewrite refresh_frame.
    + by apply (Hsaved k).
    + intros Hin%list_elem_of_In. cbn in Hin. intuition discriminate.
Qed.

Lemma timestamps_stay_text_witness :
  let saved : snapshot :=
    {[sample_key := {["first_detected_at" := VStr "2025-01-01 10:00:00"]}]} in
  let current := build_live_snapshot sample_iso [sample_question] 100 true in
  (forall snap k m,
      run_persisted (run_once_reconcile saved current sample_now) = Some snap ->
      snap !! k = Some m -> text_timestamp m)
  /\ (forall k m,
        poll_saved (watcher_poll saved current sample_now) !! k = Some m ->
        text_timestamp m)
  /\ (forall fetch k m,
        val_returned
          (validate_snapshot sample_iso (fun _ => "[]") saved fetch 100)
        !! k = Some m ->
        text_timestamp m).
Proof.
  intros saved.
  apply (timestamps_stay_text sample_iso (fun _ => "[]") saved
           [sample_question] 100 true sample_now).
  intros k old [<- <-]%lookup_singleton_Some.
  right. eexists. reflexivity.
Defined.

(** ** Cold start, empty fetch and what validation keeps *)

(** X22: on a cold start (an empty saved snapshot) a run announces every
    market of the fresh snapshot, one alert each, removes nothing, and
    persists every group stamped with the time of the run. *)
Theorem cold_start_announces_everything
    (iso_of_unix : Z -> string) (questions : list question) (now_ts : Z)
    (require_approved : bool) (now : datetime) :
  let current :=
    build_live_snapshot iso_of_unix questions now_ts require_approved in
  let r :=
    run_once iso_of_unix ∅ (Fetched questions) now_ts require_approved now in
  (forall k, k ∈ run_new_keys r <-> k ∈ dom current)
  /\ (run_alerts r).*1 = run_new_keys r
  /\ run_removed_keys r = []
  /\ run_removal_log r = []
  /\ exists snap,
       run_persisted r = Some snap
       /\ poll_persisted (watcher_poll ∅ current now) = snap
       /\ dom snap = dom current
       /\ (forall k m, snap !! k = Some m ->
             m !! "first_detected_at" = Some (VStr (now_iso now))).
Proof.
  intros current r.
  split.
  { intros k. unfold r, run_once, run_once_reconcile. cbn [run_new_keys].
    rewrite elem_of_sorted_difference, dom_empty_L.
    split; [tauto|]. intros Hk. split; [exact Hk|apply not_elem_of_empty]. }
  split.
  { unfold r, run_once, run_once_reconcile. cbn [run_alerts run_new_keys].
    apply alerts_for_keys. intros k [Hk _]%elem_of_sorted_difference.
    apply elem_of_dom.
    change (k ∈ dom (merged ∅ current now)). by rewrite dom_merged. }
  split.
  { unfold r, run_once, run_once_reconcile. cbn [run_removed_keys].
    apply sorted_difference_dom_empty. }
  split.
  { unfold r, run_once, run_once_reconcile. cbn [run_removal_log].
    by rewrite sorted_difference_dom_empty. }
  exists (merged ∅ current now).
  split; [reflexivity|]. split; [reflexivity|]. split; [apply dom_merged|].
  intros k m. rewrite merged_lookup, lookup_empty.
  destruct (current !! k); [|discriminate].
  intros [= <-]. apply lookup_insert_eq.
Qed.

Section EmptyFetch.

Variable iso_of_unix : Z -> string.

Lemma build_live_snapshot_nothing_passes (questions : list question) now_ts
    (require_approved : bool) :
  (forall q, q ∈ questions -> is_upcoming_match_option q now_ts = false) ->
  build_live_snapshot iso_of_unix questions now_ts require_approved = ∅.
Proof.
  intros Hnone. apply map_eq. intros k.
  rewrite build_live_snapshot_members, lookup_empty.
  assert (candidates_of questions now_ts = []) as ->; [|reflexivity].
  unfold candidates_of.
  induction questions as [|q qs IH]; [reflexivity|].
  cbn [List.filter]. rewrite (Hnone q) by left.
  apply IH. intros q' Hq'. apply Hnone. by right.
Qed.

Lemma merged_empty (saved : snapshot) now : merged saved ∅ now = ∅.
Proof. apply map_eq. intros k. by rewrite merged_lookup, lookup_empty. Qed.

End EmptyFetch.

(** X23: when the fetch succeeds but no question passes the filter, the
    snapshot is emptied: the single run persists the empty snapshot and
    logs every saved key as removed, the poll of the long-running variant
    persists the empty snapshot, and the validator returns the empty
    snapshot with one removal entry per saved key. *)
Theorem fetch_without_candidates_empties_snapshot
    (iso_of_unix : Z -> string) (json_dumps_sorted : value -> string)
    (saved : snapshot) (questions : list question) (now_ts : Z)
    (require_approved : bool) (now : datetime) :
  (forall q, q ∈ questions -> is_upcoming_match_option q now_ts = false) ->
  let r :=
    run_once iso_of_unix saved (Fetched questions) now_ts require_approved
      now in
  let v :=
    validate_snapshot iso_of_unix json_dumps_sorted saved (Fetched questions)
      now_ts in
  run_persisted r = Some ∅
  /\ run_new_keys r = []
  /\ run_alerts r = []
  /\ (forall k, k ∈ run_removed_keys r <-> k ∈ dom saved)
  /\ (removed_key <$> run_removal_log r) = run_removed_keys r
  /\ poll_persisted
       (watcher_poll saved
          (build_live_snapshot iso_of_unix questions now_ts true) now) = ∅
  /\ val_returned v = ∅
  /\ (forall k, k ∈ (removed_key <$> val_removal_log v) <-> k ∈ dom saved).
Proof.
  intros Hnone r v.
  pose proof (build_live_snapshot_nothing_passes iso_of_unix questions now_ts
                require_approved Hnone) as Hra.
  pose proof (build_live_snapshot_nothing_passes iso_of_unix questions now_ts
                true Hnone) as Htrue.
  pose proof (sorted_difference_dom_empty (dom saved)) as Hnew.
  unfold r, run_once, build_current_matches_snapshot. rewrite Hra, Htrue.
  split.
  { change (Some (merged saved ∅ now) = Some (∅ : snapshot)).
    by rewrite merged_empty. }
  split; [exact Hnew|].
  split.
  { unfold run_once_reconcile. cbn [run_alerts]. by rewrite Hnew. }
  split.
  { intros k. unfold run_once_reconcile. cbn [run_removed_keys].
    rewrite elem_of_sorted_difference, dom_empty_L.
    split; [tauto|]. intros Hk. split; [exact Hk|apply not_elem_of_empty]. }
  split.
  { unfold run_once_reconcile. cbn [run_removal_log run_removed_keys].
    rewrite <- list_fmap_compose. apply list_fmap_id. }
  split.
  { change (merged saved ∅ now = ∅). apply merged_empty. }
  unfold v, validate_snapshot. rewrite Htrue.
  destruct (bool_decide (saved = ∅)) eqn:He.
  { apply bool_decide_eq_true in He. subst saved. cbn.
    split; [reflexivity|]. intros k. rewrite dom_empty_L.
    split; [by intros ?%elem_of_nil|by intros ?%not_elem_of_empty]. }
  split.
  - apply map_eq. intros k.
    rewrite validate_against_returned, !lookup_empty.
    by destruct (saved !! k).
  - intros k. rewrite validate_against_removed_keys.
    rewrite list_elem_of_filter, elem_of_elements, lookup_empty. tauto.
Qed.

Lemma fetch_without_candidates_empties_snapshot_witness :
  let saved : snapshot :=
    {[sample_key := {["first_detected_at" := VStr "2025-01-01 10:00:00"]}]} in
  let r :=
    run_once sample_iso saved (Fetched [sample_question]) 200 true
      sample_now in
  let v :=
    validate_snapshot sample_iso (fun _ => "[]") saved
      (Fetched [sample_question]) 200 in
  run_persisted r = Some ∅
  /\ run_new_keys r = []
  /\ run_alerts r = []
  /\ (forall k, k ∈ run_removed_keys r <-> k ∈ dom saved)
  /\ (removed_key <$> run_removal_log r) = run_removed_keys r
  /\ poll_persisted
       (watcher_poll saved
          (build_live_snapshot sample_iso [sample_question] 200 true)
          sample_now) = ∅
  /\ val_returned v = ∅
  /\ (forall k, k ∈ (removed_key <$> val_removal_log v) <-> k ∈ dom saved).
Proof.
  intros saved.
  apply (fetch_without_candidates_empties_snapshot sample_iso
           (fun _ => "[]") saved [sample_question] 200 true sample_now).
  intros q ->%list_elem_of_singleton. reflexivity.
Defined.

(** X24: what validation keeps.  A key of a non-empty saved snapshot
    survives a validation pass exactly when some fetched question passes the
    filter, is filed under that key and is tradable; a market all of whose
    options stopped being tradable is removed like one that was delisted,
    with the same reason in the removal log. *)
Theorem validation_keeps_tradable_markets
    (iso_of_unix : Z -> string) (json_dumps_sorted : value -> string)
    (saved : snapshot) (questions : list question) (now_ts : Z)
    (k : string) :
  k ∈ dom saved ->
  let v :=
    validate_snapshot iso_of_unix json_dumps_sorted saved (Fetched questions)
      now_ts in
  (k ∈ dom (val_returned v)
   <-> exists q, q ∈ questions
                 /\ is_upcoming_match_option q now_ts = true
                 /\ groupable q = true
                 /\ group_key q = k
                 /\ tradable_question q = true)
  /\ (k ∉ dom (val_returned v) ->
      entries_for k (val_removal_log v)
      = [{| removed_key := k;
            payload := ReasonText "no longer approved/present" |}]).
Proof.
  intros Hk v.
  assert (Hne : bool_decide (saved = ∅) = false).
  { apply bool_decide_eq_false. intros ->.
    by rewrite dom_empty_L in Hk. }
  unfold v, validate_snapshot. rewrite Hne.
  set (live := build_live_snapshot iso_of_unix questions now_ts true).
  apply elem_of_dom in Hk as [si Hs].
  assert (Hdom : k ∈ dom (val_returned
                            (validate_against json_dumps_sorted saved live))
                 <-> k ∈ dom live).
  { rewrite !elem_of_dom, validate_against_returned, Hs.
    unfold validated_entry.
    destruct (live !! k); split; intros [x Hx]; try discriminate Hx; eauto. }
  split.
  - rewrite Hdom. unfold live.
    apply built_keys_approved.
  - intros Hn. rewrite Hdom in Hn. apply not_elem_of_dom in Hn.
    rewrite validate_against_removal_log.
    rewrite (entries_for_fmap
               (fun k => {| removed_key := k;
                            payload := ReasonText removal_reason |})).
    + reflexivity.
    + reflexivity.
    + apply NoDup_filter, NoDup_elements.
    + apply list_elem_of_filter. split; [exact Hn|].
      apply elem_of_elements, elem_of_dom. eauto.
Qed.

Lemma validation_keeps_tradable_markets_witness :
  let saved : snapshot :=
    {[sample_key := {["first_detected_at" := VStr "2025-01-01 10:00:00"]}]} in
  let v :=
    validate_snapshot sample_iso (fun _ => "[]") saved
      (Fetched [sample_sibling]) 100 in
  (sample_key ∈ dom (val_returned v)
   <-> exists q, q ∈ [sample_sibling]
                 /\ is_upcoming_match_option q 100 = true
                 /\ groupable q = true
                 /\ group_key q = sample_key
                 /\ tradable_question q = true)
  /\ (sample_key ∉ dom (val_returned v) ->
      entries_for sample_key (val_removal_log v)
      = [{| removed_key := sample_key;
            payload := ReasonText "no longer approved/present" |}]).
Proof.
  intros saved.
  apply (validation_keeps_tradable_markets sample_iso (fun _ => "[]") saved
           [sample_sibling] 100 sample_key).
  apply elem_of_dom. eexists. reflexivity.
Defined.
